(** * The particle canvas of the portfolio site

    A shallow embedding of the module [particles] (the canvas
    constellation effect) and of [debounce], which it imports from
    [utils.js]:

    - the physics step [updateParticles] and the initializer
      [initParticles] of the closure of [createParticleSystem];
    - the animation-loop driver ([animate], [start], [stop]) together with
      the part of the browser it talks to: the animation-frame queue, the
      timer queue, the viewport and the visibility flag;
    - the exported [initParticles], with the log of browser calls it makes.

    JavaScript numbers are modelled as real numbers: every arithmetic
    operation of the source is the exact one, [Math.sqrt] is the real
    square root and [Math.floor] the integer floor.  The viewport
    dimensions [window.innerWidth] and [window.innerHeight] are integers
    (they are [long] attributes of the window), and so are the handles of
    [requestAnimationFrame] and [setTimeout]. *)

From Stdlib Require Import Reals Lra Lia ZArith List Bool.
Import ListNotations.

Open Scope R_scope.

(** ** Numbers *)

Definition num_lt (a b : R) : bool := if Rlt_dec a b then true else false.
Definition num_gt (a b : R) : bool := num_lt b a.

Infix "<?" := num_lt (at level 70, no associativity) : R_scope.
Infix ">?" := num_gt (at level 70, no associativity) : R_scope.

Definition Math_max : R -> R -> R := Rmax.
Definition Math_min : R -> R -> R := Rmin.
Definition Math_sqrt : R -> R := sqrt.
Definition Math_floor : R -> Z := Zfloor.

Lemma num_lt_true a b : (a <? b) = true <-> a < b.
Proof. unfold num_lt. destruct (Rlt_dec a b); split; intros; auto; discriminate. Qed.

Lemma num_lt_false a b : (a <? b) = false <-> b <= a.
Proof.
  unfold num_lt. destruct (Rlt_dec a b); split; intros; auto; try discriminate; lra.
Qed.

Lemma num_gt_true a b : (a >? b) = true <-> b < a.
Proof. apply num_lt_true. Qed.

Lemma num_gt_false a b : (a >? b) = false <-> a <= b.
Proof. apply num_lt_false. Qed.

(** ** Constants of the module *)

Definition MAX_PARTICLES : R := 60.
Definition PARTICLE_SPEED : R := 0.3.
Definition CONNECTION_DISTANCE : R := 120.
Definition MOUSE_INFLUENCE_RADIUS : R := 150.
Definition MOUSE_REPEL_STRENGTH : R := 0.02.
Definition VELOCITY_CENTER : R := 0.5.
Definition PIXELS_PER_PARTICLE : R := 15000.
Definition LINE_OPACITY_FACTOR : R := 0.5.
Definition MOUSE_OFFSCREEN : R := -1000.
Definition VELOCITY_DAMPING : R := 0.99.
Definition DOT_OPACITY : R := 0.6.
Definition RESIZE_DEBOUNCE_MS : Z := 200.
Definition PARTICLE_RADIUS_BASE : R := 1.
Definition PARTICLE_RADIUS_RANGE : R := 2.
Definition SPEED_LIMIT_FACTOR : R := 2.
Definition LINE_WIDTH : R := 1.

(** ** Particles *)

Record Particle := mkParticle {
  x : R;
  y : R;
  vx : R;
  vy : R;
  radius : R
}.

Definition set_x (p : Particle) (v : R) : Particle :=
  mkParticle v (y p) (vx p) (vy p) (radius p).
Definition set_y (p : Particle) (v : R) : Particle :=
  mkParticle (x p) v (vx p) (vy p) (radius p).
Definition set_vx (p : Particle) (v : R) : Particle :=
  mkParticle (x p) (y p) v (vy p) (radius p).
Definition set_vy (p : Particle) (v : R) : Particle :=
  mkParticle (x p) (y p) (vx p) v (radius p).

(** ** The physics step: the callback of [particles.forEach] in
    [updateParticles], one group of statements at a time *)

(** [dist] of the callback: the distance of the particle to the pointer. *)
Definition pointerDistance (mouseX mouseY : R) (p : Particle) : R :=
  let dx := x p - mouseX in
  let dy := y p - mouseY in
  Math_sqrt (dx * dx + dy * dy).

(** [if (dist < MOUSE_INFLUENCE_RADIUS && dist > 0) { p.vx += ...; p.vy += ... }] *)
Definition repel (mouseX mouseY : R) (p : Particle) : Particle :=
  let dx := x p - mouseX in
  let dy := y p - mouseY in
  let dist := Math_sqrt (dx * dx + dy * dy) in
  if (dist <? MOUSE_INFLUENCE_RADIUS) && (dist >? 0) then
    let p := set_vx p (vx p + (dx / dist) * MOUSE_REPEL_STRENGTH) in
    let p := set_vy p (vy p + (dy / dist) * MOUSE_REPEL_STRENGTH) in
    p
  else p.

(** [p.x += p.vx; p.y += p.vy;] *)
Definition integrate (p : Particle) : Particle :=
  let p := set_x p (x p + vx p) in
  let p := set_y p (y p + vy p) in
  p.

Definition speedLimit : R := PARTICLE_SPEED * SPEED_LIMIT_FACTOR.

(** [p.vx = Math.max(-speedLimit, Math.min(speedLimit, p.vx));] and the
    same for [p.vy]. *)
Definition clampVelocity (p : Particle) : Particle :=
  let p := set_vx p (Math_max (- speedLimit) (Math_min speedLimit (vx p))) in
  let p := set_vy p (Math_max (- speedLimit) (Math_min speedLimit (vy p))) in
  p.

(** [p.vx *= VELOCITY_DAMPING; p.vy *= VELOCITY_DAMPING;] *)
Definition damp (p : Particle) : Particle :=
  let p := set_vx p (vx p * VELOCITY_DAMPING) in
  let p := set_vy p (vy p * VELOCITY_DAMPING) in
  p.

(** The four boundary tests, in the order of the source; each one reads
    the coordinate the previous one may have written. *)
Definition wrap (width height : R) (p : Particle) : Particle :=
  let p := if x p <? 0 then set_x p width else p in
  let p := if x p >? width then set_x p 0 else p in
  let p := if y p <? 0 then set_y p height else p in
  let p := if y p >? height then set_y p 0 else p in
  p.

(** The whole callback. *)
Definition updateParticle (width height mouseX mouseY : R) (p : Particle)
  : Particle :=
  wrap width height (damp (clampVelocity (integrate (repel mouseX mouseY p)))).

(** The callback once more, with the two divisions by [dist] checked: the
    result is [None] as soon as a division is evaluated with a zero
    divisor. *)
Definition checked_div (a b : R) : option R :=
  if Req_dec_T b 0 then None else Some (a / b).

Definition repel_checked (mouseX mouseY : R) (p : Particle) : option Particle :=
  let dx := x p - mouseX in
  let dy := y p - mouseY in
  let dist := Math_sqrt (dx * dx + dy * dy) in
  if (dist <? MOUSE_INFLUENCE_RADIUS) && (dist >? 0) then
    match checked_div dx dist with
    | None => None
    | Some ux =>
        let p := set_vx p (vx p + ux * MOUSE_REPEL_STRENGTH) in
        match checked_div dy dist with
        | None => None
        | Some uy => Some (set_vy p (vy p + uy * MOUSE_REPEL_STRENGTH))
        end
    end
  else Some p.

Definition updateParticle_checked (width height mouseX mouseY : R)
  (p : Particle) : option Particle :=
  option_map (fun q => wrap width height (damp (clampVelocity (integrate q))))
    (repel_checked mouseX mouseY p).

Example consts_ok : speedLimit = 0.6 /\ MOUSE_OFFSCREEN < 0.
Proof. unfold speedLimit, PARTICLE_SPEED, SPEED_LIMIT_FACTOR, MOUSE_OFFSCREEN. lra. Qed.

(** ** The browser

    The part of the host the module talks to.  [calls] is the log of the
    calls made to the host, most recent first.  [frameCallbacks] holds the
    handles of the animation-frame callbacks that are requested and neither
    run nor cancelled yet; [timeouts] does the same for [setTimeout].
    Handles are issued by counting up from the last one. *)

Inductive Target := Window | Document | CanvasParent.
Inductive EventType := Resize | MouseMove | MouseLeave | VisibilityChange.

Inductive Call :=
| MatchMedia
| GetElementById
| GetContext
| CanvasSetWidth (v : R)
| CanvasSetHeight (v : R)
| CtxScale (sx sy : R)
| StyleSetWidth (px : Z)
| StyleSetHeight (px : Z)
| AddEventListener (t : Target) (e : EventType)
| GetComputedStyle
| CtxClearRect (w h : R)
| CtxStroke (x1 y1 x2 y2 opacity : R)
| CtxArcFill (cx cy r alpha : R)
| CtxSetGlobalAlpha (alpha : R)
| RequestAnimationFrame (handle : Z)
| CancelAnimationFrame (handle : Z)
| SetTimeout (handle delay : Z)
| ClearTimeout (handle : Z).

Record Browser := mkBrowser {
  innerWidth : Z;
  innerHeight : Z;
  devicePixelRatio : R;
  reducedMotion : bool;
  canvasPresent : bool;
  context2d : bool;
  documentHidden : bool;
  frameCallbacks : list Z;
  frameHandle : Z;
  timeouts : list Z;
  timeoutHandle : Z;
  randoms : nat -> R;
  calls : list Call
}.

Definition set_viewport (b : Browser) (w h : Z) : Browser :=
  mkBrowser w h (devicePixelRatio b) (reducedMotion b) (canvasPresent b)
    (context2d b) (documentHidden b) (frameCallbacks b) (frameHandle b)
    (timeouts b) (timeoutHandle b) (randoms b) (calls b).

Definition set_documentHidden (b : Browser) (v : bool) : Browser :=
  mkBrowser (innerWidth b) (innerHeight b) (devicePixelRatio b)
    (reducedMotion b) (canvasPresent b) (context2d b) v (frameCallbacks b)
    (frameHandle b) (timeouts b) (timeoutHandle b) (randoms b) (calls b).

Definition set_frames (b : Browser) (q : list Z) (h : Z) : Browser :=
  mkBrowser (innerWidth b) (innerHeight b) (devicePixelRatio b)
    (reducedMotion b) (canvasPresent b) (context2d b) (documentHidden b) q h
    (timeouts b) (timeoutHandle b) (randoms b) (calls b).

Definition set_timeouts (b : Browser) (q : list Z) (h : Z) : Browser :=
  mkBrowser (innerWidth b) (innerHeight b) (devicePixelRatio b)
    (reducedMotion b) (canvasPresent b) (context2d b) (documentHidden b)
    (frameCallbacks b) (frameHandle b) q h (randoms b) (calls b).

Definition set_randoms (b : Browser) (r : nat -> R) : Browser :=
  mkBrowser (innerWidth b) (innerHeight b) (devicePixelRatio b)
    (reducedMotion b) (canvasPresent b) (context2d b) (documentHidden b)
    (frameCallbacks b) (frameHandle b) (timeouts b) (timeoutHandle b) r
    (calls b).

Definition set_calls (b : Browser) (l : list Call) : Browser :=
  mkBrowser (innerWidth b) (innerHeight b) (devicePixelRatio b)
    (reducedMotion b) (canvasPresent b) (context2d b) (documentHidden b)
    (frameCallbacks b) (frameHandle b) (timeouts b) (timeoutHandle b)
    (randoms b) l.

Definition log (c : Call) (b : Browser) : Browser := set_calls b (c :: calls b).

Definition logs (cs : list Call) (b : Browser) : Browser :=
  set_calls b (rev cs ++ calls b).

(** [requestAnimationFrame(callback)]: the next handle, queued. *)
Definition requestAnimationFrame (b : Browser) : Z * Browser :=
  let h := (frameHandle b + 1)%Z in
  (h, log (RequestAnimationFrame h) (set_frames b (frameCallbacks b ++ [h]) h)).

(** [cancelAnimationFrame(handle)]: the callback leaves the queue. *)
Definition cancelAnimationFrame (h : Z) (b : Browser) : Browser :=
  log (CancelAnimationFrame h)
    (set_frames b (remove Z.eq_dec h (frameCallbacks b)) (frameHandle b)).

Definition setTimeout (delay : Z) (b : Browser) : Z * Browser :=
  let h := (timeoutHandle b + 1)%Z in
  (h, log (SetTimeout h delay) (set_timeouts b (timeouts b ++ [h]) h)).

Definition clearTimeout (h : Z) (b : Browser) : Browser :=
  log (ClearTimeout h)
    (set_timeouts b (remove Z.eq_dec h (timeouts b)) (timeoutHandle b)).

(** [Math.random()]: the head of the stream of draws. *)
Definition Math_random (b : Browser) : R * Browser :=
  (randoms b O, set_randoms b (fun n => randoms b (S n))).

(** A handle or [null] in a condition: [null] and [0] are falsy. *)
Definition truthy (id : option Z) : bool :=
  match id with
  | None => false
  | Some h => negb (h =? 0)%Z
  end.

(** ** The closure of [createParticleSystem]

    The variables of the closure, the [timerId] of the closure that
    [debounce] returns, and two probes that count the runs of
    [updateParticles] and of [draw]. *)

Record System := mkSystem {
  particles : list Particle;
  mouseX : R;
  mouseY : R;
  animationId : option Z;
  isVisible : bool;
  timerId : option Z;
  updates : nat;
  draws : nat
}.

Definition set_particles (s : System) (v : list Particle) : System :=
  mkSystem v (mouseX s) (mouseY s) (animationId s) (isVisible s) (timerId s)
    (updates s) (draws s).
Definition set_mouse (s : System) (mx my : R) : System :=
  mkSystem (particles s) mx my (animationId s) (isVisible s) (timerId s)
    (updates s) (draws s).
Definition set_animationId (s : System) (v : option Z) : System :=
  mkSystem (particles s) (mouseX s) (mouseY s) v (isVisible s) (timerId s)
    (updates s) (draws s).
Definition set_isVisible (s : System) (v : bool) : System :=
  mkSystem (particles s) (mouseX s) (mouseY s) (animationId s) v (timerId s)
    (updates s) (draws s).
Definition set_timerId (s : System) (v : option Z) : System :=
  mkSystem (particles s) (mouseX s) (mouseY s) (animationId s) (isVisible s) v
    (updates s) (draws s).
Definition count_update (s : System) : System :=
  mkSystem (particles s) (mouseX s) (mouseY s) (animationId s) (isVisible s)
    (timerId s) (S (updates s)) (draws s).
Definition count_draw (s : System) : System :=
  mkSystem (particles s) (mouseX s) (mouseY s) (animationId s) (isVisible s)
    (timerId s) (updates s) (S (draws s)).

Record World := mkWorld {
  host : Browser;
  sys : System
}.

Definition set_host (w : World) (b : Browser) : World := mkWorld b (sys w).
Definition set_sys (w : World) (s : System) : World := mkWorld (host w) s.

(** [Array.from({ length: count }, f)] makes [ToLength(count)] elements:
    none for a negative count. *)
Definition ToLength (count : R) : nat := Z.to_nat (Math_floor count).

Module ParticleSystem.

(** [resize()]: the canvas takes the size of the viewport. *)
Definition resize (w : World) : World :=
  let b := host w in
  let dpr :=
    if Req_dec_T (devicePixelRatio b) 0 then 1 else devicePixelRatio b in
  set_host w
    (logs [CanvasSetWidth (IZR (innerWidth b) * dpr);
           CanvasSetHeight (IZR (innerHeight b) * dpr);
           CtxScale dpr dpr;
           StyleSetWidth (innerWidth b);
           StyleSetHeight (innerHeight b)] b).

(** [createParticle()]: five draws, in the order of the object literal. *)
Definition createParticle (b : Browser) : Particle * Browser :=
  let '(r1, b) := Math_random b in
  let '(r2, b) := Math_random b in
  let '(r3, b) := Math_random b in
  let '(r4, b) := Math_random b in
  let '(r5, b) := Math_random b in
  (mkParticle (r1 * IZR (innerWidth b))
              (r2 * IZR (innerHeight b))
              ((r3 - VELOCITY_CENTER) * PARTICLE_SPEED)
              ((r4 - VELOCITY_CENTER) * PARTICLE_SPEED)
              (r5 * PARTICLE_RADIUS_RANGE + PARTICLE_RADIUS_BASE), b).

Fixpoint arrayFrom (n : nat) (b : Browser) : list Particle * Browser :=
  match n with
  | O => ([], b)
  | S n' =>
      let '(p, b) := createParticle b in
      let '(ps, b) := arrayFrom n' b in
      (p :: ps, b)
  end.

(** [count] of [initParticles]. *)
Definition particleCount (b : Browser) : R :=
  Math_min MAX_PARTICLES
    (IZR (Math_floor
            (IZR (innerWidth b) * IZR (innerHeight b) / PIXELS_PER_PARTICLE))).

Definition initParticles (w : World) : World :=
  let count := particleCount (host w) in
  let made := arrayFrom (ToLength count) (host w) in
  mkWorld (snd made) (set_particles (sys w) (fst made)).

Definition updateParticles (w : World) : World :=
  let width := IZR (innerWidth (host w)) in
  let height := IZR (innerHeight (host w)) in
  let s := sys w in
  set_sys w
    (count_update
       (set_particles s
          (map (updateParticle width height (mouseX s) (mouseY s))
             (particles s)))).

(** The lines of [draw] from particle [p] to the particles after it. *)
Fixpoint linesFrom (p : Particle) (rest : list Particle) : list Call :=
  match rest with
  | [] => []
  | q :: rest' =>
      let dx := x p - x q in
      let dy := y p - y q in
      let dist := Math_sqrt (dx * dx + dy * dy) in
      (if dist <? CONNECTION_DISTANCE then
         let opacity := (1 - dist / CONNECTION_DISTANCE) * LINE_OPACITY_FACTOR in
         [CtxStroke (x p) (y p) (x q) (y q) opacity]
       else []) ++ linesFrom p rest'
  end.

Fixpoint lines (ps : list Particle) : list Call :=
  match ps with
  | [] => []
  | p :: rest => linesFrom p rest ++ lines rest
  end.

Definition dots (ps : list Particle) : list Call :=
  map (fun p => CtxArcFill (x p) (y p) (radius p) DOT_OPACITY) ps.

(** [draw()]: the colours are read, the viewport is cleared, then the
    lines and the dots are drawn.  The colour strings are not modelled. *)
Definition draw (w : World) : World :=
  let b := host w in
  let ps := particles (sys w) in
  mkWorld
    (logs ([GetComputedStyle;
            CtxClearRect (IZR (innerWidth b)) (IZR (innerHeight b))]
           ++ lines ps ++ dots ps ++ [CtxSetGlobalAlpha 1]) b)
    (count_draw (sys w)).

Definition animate (w : World) : World :=
  if negb (isVisible (sys w)) then w
  else
    let w := updateParticles w in
    let w := draw w in
    let '(h, b) := requestAnimationFrame (host w) in
    mkWorld b (set_animationId (sys w) (Some h)).

Definition start (w : World) : World :=
  let w := set_sys w (set_isVisible (sys w) true) in
  if negb (truthy (animationId (sys w))) then animate w else w.

Definition stop (w : World) : World :=
  let w := set_sys w (set_isVisible (sys w) false) in
  match animationId (sys w) with
  | Some h =>
      if truthy (Some h) then
        mkWorld (cancelAnimationFrame h (host w))
                (set_animationId (sys w) None)
      else w
  | None => w
  end.

(** [debouncedFn] of [debounce], for the resize handler. *)
Definition debouncedResize (w : World) : World :=
  let w :=
    match timerId (sys w) with
    | Some t => set_host w (clearTimeout t (host w))
    | None => w
    end in
  let '(t, b) := setTimeout RESIZE_DEBOUNCE_MS (host w) in
  mkWorld b (set_timerId (sys w) (Some t)).

(** The callback [debounce] hands to [setTimeout]. *)
Definition resizeTimer (w : World) : World :=
  let w := resize w in
  let w := initParticles w in
  set_sys w (set_timerId (sys w) None).

Definition onMouseMove (clientX clientY : R) (w : World) : World :=
  set_sys w (set_mouse (sys w) clientX clientY).

Definition onMouseLeave (w : World) : World :=
  set_sys w (set_mouse (sys w) MOUSE_OFFSCREEN MOUSE_OFFSCREEN).

Definition onVisibilityChange (w : World) : World :=
  if documentHidden (host w) then stop w else start w.

End ParticleSystem.

(** [createParticleSystem(canvas)]: [None] is the [null] of the source;
    the closure that is returned otherwise stands for the handle
    [{ start, stop, resize }]. *)
Definition createParticleSystem (b : Browser) : Browser * option System :=
  let b := log GetContext b in
  if negb (context2d b) then (b, None)
  else
    let s := mkSystem [] MOUSE_OFFSCREEN MOUSE_OFFSCREEN None true None 0 0 in
    let w := ParticleSystem.resize (mkWorld b s) in
    let w := ParticleSystem.initParticles w in
    let b := logs [AddEventListener Window Resize;
                   AddEventListener CanvasParent MouseMove;
                   AddEventListener CanvasParent MouseLeave;
                   AddEventListener Document VisibilityChange] (host w) in
    (b, Some (sys w)).

(** The exported [initParticles()]. *)
Definition initParticles (b : Browser) : Browser * option System :=
  let b := log MatchMedia b in
  if reducedMotion b then (b, None)
  else
    let b := log GetElementById b in
    if negb (canvasPresent b) then (b, None)
    else
      match createParticleSystem b with
      | (b, None) => (b, None)
      | (b, Some s) =>
          let w := ParticleSystem.start (mkWorld b s) in
          (host w, Some (sys w))
      end.

(** ** The event loop

    What can happen to a particle system once it is created: a method of
    its handle is called, the browser runs a frame callback or a timer that
    is still queued, the viewport changes and [resize] is dispatched, the
    pointer moves or leaves, the visibility of the document changes, or
    another script requests an animation frame and takes a handle. *)

Inductive Event :=
| CallStart
| CallStop
| CallResize
| FrameFires (handle : Z)
| TimerFires (handle : Z)
| WindowResized (width height : Z)
| MouseMoved (clientX clientY : R)
| MouseLeft
| VisibilityChanged (hidden : bool)
| ForeignFrame.

Definition mem (h : Z) (l : list Z) : bool := existsb (Z.eqb h) l.

Definition step (e : Event) (w : World) : World :=
  match e with
  | CallStart => ParticleSystem.start w
  | CallStop => ParticleSystem.stop w
  | CallResize => ParticleSystem.resize w
  | FrameFires h =>
      let b := host w in
      if mem h (frameCallbacks b) then
        ParticleSystem.animate
          (set_host w
             (set_frames b (remove Z.eq_dec h (frameCallbacks b)) (frameHandle b)))
      else w
  | TimerFires h =>
      let b := host w in
      if mem h (timeouts b) then
        ParticleSystem.resizeTimer
          (set_host w
             (set_timeouts b (remove Z.eq_dec h (timeouts b)) (timeoutHandle b)))
      else w
  | WindowResized width height =>
      ParticleSystem.debouncedResize
        (set_host w (set_viewport (host w) width height))
  | MouseMoved cx cy => ParticleSystem.onMouseMove cx cy w
  | MouseLeft => ParticleSystem.onMouseLeave w
  | VisibilityChanged hidden =>
      ParticleSystem.onVisibilityChange
        (set_host w (set_documentHidden (host w) hidden))
  | ForeignFrame =>
      let b := host w in
      set_host w (set_frames b (frameCallbacks b) (frameHandle b + 1))
  end.

Fixpoint run (evs : list Event) (w : World) : World :=
  match evs with
  | [] => w
  | e :: evs' => run evs' (step e w)
  end.

(** A browser in which no callback of the module is queued yet. *)
Definition fresh (b : Browser) : Prop :=
  frameCallbacks b = [] /\ timeouts b = [] /\
  (0 <= frameHandle b)%Z /\ (0 <= timeoutHandle b)%Z.

(** The worlds a page can be in: a particle system is created in a fresh
    browser, then events happen. *)
Inductive reachable : World -> Prop :=
| reach_create b b' s :
    fresh b -> createParticleSystem b = (b', Some s) ->
    reachable (mkWorld b' s)
| reach_step e w : reachable w -> reachable (step e w).

(** Events that call [start()]. *)
Definition calls_start (e : Event) : bool :=
  match e with
  | CallStart => true
  | VisibilityChanged hidden => negb hidden
  | _ => false
  end.

(** A concrete page, for the examples: an 800 by 600 viewport, a canvas
    with a 2D context, motion allowed. *)
Definition demoBrowser : Browser :=
  mkBrowser 800 600 1 false true true false [] 0 [] 0 (fun _ => 1 / 2) [].

Definition idleSystem (ps : list Particle) (mx my : R) : System :=
  mkSystem ps mx my None true None 0 0.

(** * Properties *)

(** ** The stages of the physics step *)

Ltac num_cases :=
  repeat match goal with
  | |- context [?a <? ?b] =>
      let E := fresh "E" in
      destruct (a <? b) eqn:E;
      [apply num_lt_true in E | apply num_lt_false in E]
  | |- context [?a >? ?b] =>
      let E := fresh "E" in
      destruct (a >? b) eqn:E;
      [apply num_gt_true in E | apply num_gt_false in E]
  end.

Lemma wrap_velocity W H p :
  vx (wrap W H p) = vx p /\ vy (wrap W H p) = vy p /\
  radius (wrap W H p) = radius p.
Proof.
  unfold wrap. cbn zeta.
  destruct (x p <? 0); cbn [x y set_x];
    destruct (_ >? W); cbn [x y set_x];
    destruct (y p <? 0); cbn [x y set_y];
    destruct (_ >? H); cbn; auto.
Qed.

Lemma wrap_x W H p :
  x (wrap W H p) =
    let x1 := if x p <? 0 then W else x p in
    if x1 >? W then 0 else x1.
Proof.
  unfold wrap. cbn zeta.
  destruct (x p <? 0); cbn [x y set_x];
    destruct (_ >? W); cbn [x y set_x];
    destruct (y p <? 0); cbn [x y set_y];
    destruct (_ >? H); cbn; auto.
Qed.

Lemma wrap_y W H p :
  y (wrap W H p) =
    let y1 := if y p <? 0 then H else y p in
    if y1 >? H then 0 else y1.
Proof.
  unfold wrap. cbn zeta.
  destruct (x p <? 0); cbn [x y set_x];
    destruct (_ >? W); cbn [x y set_x];
    destruct (y p <? 0); cbn [x y set_y];
    destruct (_ >? H); cbn; auto.
Qed.

Lemma wrap_x_range W H p : 0 <= W -> 0 <= x (wrap W H p) <= W.
Proof. intros HW. rewrite wrap_x. cbn zeta. num_cases; lra. Qed.

Lemma wrap_y_range W H p : 0 <= H -> 0 <= y (wrap W H p) <= H.
Proof. intros HH. rewrite wrap_y. cbn zeta. num_cases; lra. Qed.

Lemma clamp_range v :
  - speedLimit <= Math_max (- speedLimit) (Math_min speedLimit v) <= speedLimit.
Proof.
  unfold Math_max, Math_min, speedLimit, PARTICLE_SPEED, SPEED_LIMIT_FACTOR.
  unfold Rmax, Rmin.
  repeat match goal with |- context [Rle_dec ?a ?b] => destruct (Rle_dec a b) end;
    lra.
Qed.

Lemma updateParticle_vx W H mx my p :
  vx (updateParticle W H mx my p) =
    Math_max (- speedLimit) (Math_min speedLimit (vx (repel mx my p)))
    * VELOCITY_DAMPING.
Proof.
  unfold updateParticle.
  destruct (wrap_velocity W H (damp (clampVelocity (integrate (repel mx my p)))))
    as [-> _].
  reflexivity.
Qed.

Lemma updateParticle_vy W H mx my p :
  vy (updateParticle W H mx my p) =
    Math_max (- speedLimit) (Math_min speedLimit (vy (repel mx my p)))
    * VELOCITY_DAMPING.
Proof.
  unfold updateParticle.
  destruct (wrap_velocity W H (damp (clampVelocity (integrate (repel mx my p)))))
    as [_ [-> _]].
  reflexivity.
Qed.

Lemma repel_radius mx my p : radius (repel mx my p) = radius p.
Proof. unfold repel. cbn zeta. destruct (_ && _); reflexivity. Qed.

Lemma updateParticle_radius W H mx my p :
  radius (updateParticle W H mx my p) = radius p.
Proof.
  unfold updateParticle.
  destruct (wrap_velocity W H (damp (clampVelocity (integrate (repel mx my p)))))
    as [_ [_ ->]].
  cbn. apply repel_radius.
Qed.

Definition in_viewport (W H : R) (p : Particle) : Prop :=
  0 <= x p <= W /\ 0 <= y p <= H.

Definition speed_bounded (p : Particle) : Prop :=
  Rabs (vx p) <= 2 * PARTICLE_SPEED /\ Rabs (vy p) <= 2 * PARTICLE_SPEED.

Lemma updateParticle_in_viewport W H mx my p :
  0 <= W -> 0 <= H -> in_viewport W H (updateParticle W H mx my p).
Proof.
  intros HW HH. unfold updateParticle. split.
  - now apply wrap_x_range.
  - now apply wrap_y_range.
Qed.

Lemma damped_bound v :
  - speedLimit <= v <= speedLimit ->
  Rabs (v * VELOCITY_DAMPING) <= 2 * PARTICLE_SPEED.
Proof.
  unfold speedLimit, PARTICLE_SPEED, SPEED_LIMIT_FACTOR, VELOCITY_DAMPING.
  intros Hv. apply Rabs_le. lra.
Qed.

Lemma updateParticle_speed_bounded W H mx my p :
  speed_bounded (updateParticle W H mx my p).
Proof.
  split.
  - rewrite updateParticle_vx. apply damped_bound, clamp_range.
  - rewrite updateParticle_vy. apply damped_bound, clamp_range.
Qed.

(** ** Runs of [updateParticles] *)

Lemma updateParticles_host w :
  host (ParticleSystem.updateParticles w) = host w.
Proof. reflexivity. Qed.

Lemma iter_updateParticles_host n w :
  host (Nat.iter n ParticleSystem.updateParticles w) = host w.
Proof.
  induction n as [|n IH]; [reflexivity|].
  change (Nat.iter (S n) ParticleSystem.updateParticles w)
    with (ParticleSystem.updateParticles (Nat.iter n ParticleSystem.updateParticles w)).
  now rewrite updateParticles_host.
Qed.

Lemma updateParticles_particles w :
  particles (sys (ParticleSystem.updateParticles w)) =
    map (updateParticle (IZR (innerWidth (host w))) (IZR (innerHeight (host w)))
           (mouseX (sys w)) (mouseY (sys w)))
      (particles (sys w)).
Proof. reflexivity. Qed.

(** ** The pointer *)

Lemma repel_far mx my p :
  MOUSE_INFLUENCE_RADIUS * MOUSE_INFLUENCE_RADIUS
    <= (x p - mx) * (x p - mx) + (y p - my) * (y p - my) ->
  repel mx my p = p.
Proof.
  intros Hfar. unfold repel. cbn zeta.
  assert (Hd : MOUSE_INFLUENCE_RADIUS
               <= Math_sqrt ((x p - mx) * (x p - mx) + (y p - my) * (y p - my))).
  { unfold Math_sqrt.
    rewrite <- (sqrt_square MOUSE_INFLUENCE_RADIUS) at 1
      by (unfold MOUSE_INFLUENCE_RADIUS; lra).
    now apply sqrt_le_1_alt. }
  apply num_lt_false in Hd. now rewrite Hd.
Qed.

Lemma pointerDistance_self p : pointerDistance (x p) (y p) p = 0.
Proof.
  unfold pointerDistance, Math_sqrt. cbn zeta.
  replace ((x p - x p) * (x p - x p) + (y p - y p) * (y p - y p)) with 0 by ring.
  apply sqrt_0.
Qed.

Lemma repel_at_distance_zero mx my p :
  pointerDistance mx my p = 0 -> repel mx my p = p.
Proof.
  unfold pointerDistance, repel. cbn zeta. intros ->.
  assert (E : (0 >? 0) = false) by (apply num_gt_false; lra).
  now rewrite E, andb_false_r.
Qed.

Lemma repel_checked_total mx my p :
  repel_checked mx my p = Some (repel mx my p).
Proof.
  unfold repel_checked, repel, checked_div. cbn zeta.
  destruct (_ <? MOUSE_INFLUENCE_RADIUS); cbn [andb]; [|reflexivity].
  destruct (_ >? 0) eqn:E; [|reflexivity].
  apply num_gt_true in E.
  destruct (Req_dec_T _ 0) as [Z0|_]; [lra|reflexivity].
Qed.

Lemma repel_below r d :
  0 < d < MOUSE_INFLUENCE_RADIUS ->
  repel 100 (100 + d) (mkParticle 100 100 0 0 r)
  = mkParticle 100 100 0 (- MOUSE_REPEL_STRENGTH) r.
Proof.
  intros [Hd0 Hd1]. unfold repel. cbn [x y vx vy radius]. cbn zeta.
  replace ((100 - 100) * (100 - 100) + (100 - (100 + d)) * (100 - (100 + d)))
    with (d * d) by ring.
  unfold Math_sqrt. rewrite sqrt_square by lra.
  assert (E1 : (d <? MOUSE_INFLUENCE_RADIUS) = true) by now apply num_lt_true.
  assert (E2 : (d >? 0) = true) by now apply num_gt_true.
  rewrite E1, E2. cbn [andb]. unfold set_vx, set_vy. cbn [x y vx vy radius].
  f_equal.
  - unfold MOUSE_REPEL_STRENGTH. field. lra.
  - unfold MOUSE_REPEL_STRENGTH. field. lra.
Qed.

(** ** The physics step, claim by claim *)

Definition edgeWorld : World :=
  mkWorld demoBrowser
    (idleSystem [mkParticle 0 300 (-1) 0 1] MOUSE_OFFSCREEN MOUSE_OFFSCREEN).

Lemma particle_ext p q :
  x p = x q -> y p = y q -> vx p = vx q -> vy p = vy q ->
  radius p = radius q -> p = q.
Proof. destruct p, q; cbn; intros; subst; reflexivity. Qed.

Lemma clamp_inside v :
  - speedLimit <= v <= speedLimit ->
  Math_max (- speedLimit) (Math_min speedLimit v) = v.
Proof.
  intros Hv. unfold Math_max, Math_min.
  rewrite Rmin_right by lra. now rewrite Rmax_right by lra.
Qed.

Lemma clamp_below v :
  v <= - speedLimit ->
  Math_max (- speedLimit) (Math_min speedLimit v) = - speedLimit.
Proof.
  intros Hv. unfold Math_max, Math_min.
  assert (0 <= speedLimit)
    by (unfold speedLimit, PARTICLE_SPEED, SPEED_LIMIT_FACTOR; lra).
  rewrite Rmin_right by lra. now rewrite Rmax_left by lra.
Qed.

Lemma edgeWorld_step :
  particles (sys (ParticleSystem.updateParticles edgeWorld))
  = [mkParticle 800 300 (- (0.6 * 0.99)) 0 1].
Proof.
  rewrite updateParticles_particles.
  cbn [edgeWorld host sys particles idleSystem mouseX mouseY demoBrowser
       innerWidth innerHeight map].
  f_equal.
  assert (Hfar : repel MOUSE_OFFSCREEN MOUSE_OFFSCREEN (mkParticle 0 300 (-1) 0 1)
                 = mkParticle 0 300 (-1) 0 1).
  { apply repel_far. cbn [x y].
    unfold MOUSE_INFLUENCE_RADIUS, MOUSE_OFFSCREEN. lra. }
  apply particle_ext.
  - unfold updateParticle. rewrite wrap_x, Hfar. cbn. num_cases; lra.
  - unfold updateParticle. rewrite wrap_y, Hfar. cbn. num_cases; lra.
  - rewrite updateParticle_vx, Hfar. cbn [vx].
    rewrite clamp_below.
    + unfold speedLimit, PARTICLE_SPEED, SPEED_LIMIT_FACTOR, VELOCITY_DAMPING. lra.
    + unfold speedLimit, PARTICLE_SPEED, SPEED_LIMIT_FACTOR. lra.
  - rewrite updateParticle_vy, Hfar. cbn [vy].
    rewrite clamp_inside.
    + unfold VELOCITY_DAMPING. lra.
    + unfold speedLimit, PARTICLE_SPEED, SPEED_LIMIT_FACTOR. lra.
  - now rewrite updateParticle_radius.
Qed.

Lemma iter_succ n w :
  Nat.iter (S n) ParticleSystem.updateParticles w
  = ParticleSystem.updateParticles (Nat.iter n ParticleSystem.updateParticles w).
Proof. reflexivity. Qed.

(** C1, as the code has it.  After any positive number of physics steps on
    a viewport of width [w] and height [h], every particle has
    [0 <= x <= w] and [0 <= y <= h], both ends included: a particle that
    leaves through the left or the top edge re-enters exactly at [w] or
    [h].  The wrap leaves both velocity components alone, resets a
    coordinate below [0] to the extent and one above the extent to [0],
    and leaves a coordinate inside the range (so also the coordinate of
    the other axis) as it is. *)
Theorem positions_wrap_into_closed_viewport :
  forall (w : World) (n : nat) (W H : R) (p : Particle),
    (0 <= innerWidth (host w))%Z ->
    (0 <= innerHeight (host w))%Z ->
    0 <= W -> 0 <= H ->
    Forall (in_viewport (IZR (innerWidth (host w))) (IZR (innerHeight (host w))))
      (particles (sys (Nat.iter (S n) ParticleSystem.updateParticles w)))
    /\ vx (wrap W H p) = vx p
    /\ vy (wrap W H p) = vy p
    /\ (x p < 0 -> x (wrap W H p) = W)
    /\ (W < x p -> x (wrap W H p) = 0)
    /\ (0 <= x p <= W -> x (wrap W H p) = x p)
    /\ (y p < 0 -> y (wrap W H p) = H)
    /\ (H < y p -> y (wrap W H p) = 0)
    /\ (0 <= y p <= H -> y (wrap W H p) = y p).
Proof.
  intros w n W H p Hw Hh HW HH. split.
  - rewrite iter_succ, updateParticles_particles, iter_updateParticles_host.
    apply Forall_forall. intros q Hq.
    apply in_map_iff in Hq. destruct Hq as [q0 [<- _]].
    apply updateParticle_in_viewport; now apply IZR_le.
  - destruct (wrap_velocity W H p) as [Hvx [Hvy _]].
    rewrite wrap_x, wrap_y. cbn zeta.
    repeat split; auto; intros; num_cases; lra.
Qed.

Lemma positions_wrap_into_closed_viewport_witness :
  (0 <= innerWidth (host edgeWorld))%Z /\
  (0 <= innerHeight (host edgeWorld))%Z /\
  0 <= 800 /\ 0 <= 600 /\
  Forall (in_viewport 800 600)
    (particles (sys (Nat.iter 1 ParticleSystem.updateParticles edgeWorld))) /\
  x (wrap 800 600 (mkParticle (-1) 300 (-1) 0 1)) = 800.
Proof.
  assert (H0 : (0 <= innerWidth (host edgeWorld))%Z) by (cbn; lia).
  assert (H1 : (0 <= innerHeight (host edgeWorld))%Z) by (cbn; lia).
  assert (H2 : 0 <= 800) by lra.
  assert (H3 : 0 <= 600) by lra.
  pose proof (positions_wrap_into_closed_viewport edgeWorld 0 800 600
                (mkParticle (-1) 300 (-1) 0 1) H0 H1 H2 H3) as HT.
  repeat split; try assumption.
  - apply (proj1 HT).
  - apply (proj1 (proj2 (proj2 (proj2 HT)))). cbn. lra.
Defined.

(** C1 as it is worded fails: the particle at [(0, 300)] that moves left
    with [vx = -1] in the 800 by 600 viewport is at [x = 800] after one
    step, which is not below the width. *)
Lemma half_open_viewport_counterexample :
  ~ Forall (fun p => 0 <= x p < IZR (innerWidth (host edgeWorld)) /\
                     0 <= y p < IZR (innerHeight (host edgeWorld)))
      (particles (sys (Nat.iter 1 ParticleSystem.updateParticles edgeWorld))).
Proof.
  rewrite iter_succ. cbn [Nat.iter nat_rect]. rewrite edgeWorld_step.
  intros HF. inversion HF as [|q l [[_ Hx] _] _]; subst.
  cbn in Hx. lra.
Qed.

(** C2.  After any positive number of physics steps each velocity
    component of every particle is at most [2 * PARTICLE_SPEED] in absolute
    value; the component a step leaves is the one after the repulsion,
    clamped to the speed limit and then damped. *)
Theorem velocity_bounded_after_steps :
  forall (w : World) (n : nat) (W H mx my : R) (p : Particle),
    Forall speed_bounded
      (particles (sys (Nat.iter (S n) ParticleSystem.updateParticles w)))
    /\ vx (updateParticle W H mx my p)
       = Math_max (- (PARTICLE_SPEED * SPEED_LIMIT_FACTOR))
           (Math_min (PARTICLE_SPEED * SPEED_LIMIT_FACTOR) (vx (repel mx my p)))
         * VELOCITY_DAMPING
    /\ vy (updateParticle W H mx my p)
       = Math_max (- (PARTICLE_SPEED * SPEED_LIMIT_FACTOR))
           (Math_min (PARTICLE_SPEED * SPEED_LIMIT_FACTOR) (vy (repel mx my p)))
         * VELOCITY_DAMPING.
Proof.
  intros w n W H mx my p. split; [|split].
  - rewrite iter_succ, updateParticles_particles.
    apply Forall_forall. intros q Hq.
    apply in_map_iff in Hq. destruct Hq as [q0 [<- _]].
    apply updateParticle_speed_bounded.
  - apply updateParticle_vx.
  - apply updateParticle_vy.
Qed.

(** C6.  The two divisions by [dist] are never evaluated with a zero
    divisor: the checked callback always returns, with the result of the
    callback.  A particle exactly at the pointer gets no impulse: its
    velocity after the step is its old velocity, clamped and damped. *)
Theorem no_division_by_zero_distance :
  forall (W H mx my : R) (p : Particle),
    updateParticle_checked W H mx my p = Some (updateParticle W H mx my p)
    /\ pointerDistance (x p) (y p) p = 0
    /\ repel (x p) (y p) p = p
    /\ vx (updateParticle W H (x p) (y p) p)
       = Math_max (- speedLimit) (Math_min speedLimit (vx p)) * VELOCITY_DAMPING
    /\ vy (updateParticle W H (x p) (y p) p)
       = Math_max (- speedLimit) (Math_min speedLimit (vy p)) * VELOCITY_DAMPING.
Proof.
  intros W H mx my p.
  pose proof (repel_at_distance_zero (x p) (y p) p (pointerDistance_self p)) as Hr.
  repeat split.
  - unfold updateParticle_checked. now rewrite repel_checked_total.
  - apply pointerDistance_self.
  - exact Hr.
  - now rewrite updateParticle_vx, Hr.
  - now rewrite updateParticle_vy, Hr.
Qed.

(** C7.  One particle at [(100, 100)] at rest, the pointer at
    [(100, 100 + d)] with [0 < d < MOUSE_INFLUENCE_RADIUS]: after one
    physics step the particle's [vy] is negative, namely
    [- MOUSE_REPEL_STRENGTH * VELOCITY_DAMPING], and its [vx] is still 0. *)
Theorem pointer_below_pushes_up :
  forall (w : World) (d r : R),
    0 < d < MOUSE_INFLUENCE_RADIUS ->
    particles (sys w) = [mkParticle 100 100 0 0 r] ->
    mouseX (sys w) = 100 ->
    mouseY (sys w) = 100 + d ->
    exists q,
      particles (sys (ParticleSystem.updateParticles w)) = [q]
      /\ vy q < 0
      /\ vy q = - (MOUSE_REPEL_STRENGTH * VELOCITY_DAMPING)
      /\ vx q = 0.
Proof.
  intros w d r Hd Hps Hmx Hmy.
  rewrite updateParticles_particles, Hps, Hmx, Hmy. cbn [map].
  eexists. split; [reflexivity|].
  rewrite updateParticle_vy, updateParticle_vx, (repel_below r d Hd).
  cbn [vx vy].
  rewrite !clamp_inside
    by (unfold speedLimit, PARTICLE_SPEED, SPEED_LIMIT_FACTOR,
          MOUSE_REPEL_STRENGTH; lra).
  unfold MOUSE_REPEL_STRENGTH, VELOCITY_DAMPING. repeat split; lra.
Qed.

Definition pointerWorld : World :=
  mkWorld demoBrowser (idleSystem [mkParticle 100 100 0 0 1] 100 (100 + 50)).

Lemma pointer_below_pushes_up_witness :
  0 < 50 < MOUSE_INFLUENCE_RADIUS /\
  exists q,
    particles (sys (ParticleSystem.updateParticles pointerWorld)) = [q]
    /\ vy q < 0
    /\ vy q = - (MOUSE_REPEL_STRENGTH * VELOCITY_DAMPING)
    /\ vx q = 0.
Proof.
  assert (Hd : 0 < 50 < MOUSE_INFLUENCE_RADIUS)
    by (unfold MOUSE_INFLUENCE_RADIUS; lra).
  split; [exact Hd|].
  exact (pointer_below_pushes_up pointerWorld 50 1 Hd eq_refl eq_refl eq_refl).
Defined.

(** C10.  A physics step keeps the number of particles and the radius of
    each; it touches neither the browser nor the other variables of the
    closure. *)
Theorem physics_step_frame :
  forall (w : World),
    let w' := ParticleSystem.updateParticles w in
    length (particles (sys w')) = length (particles (sys w))
    /\ map radius (particles (sys w')) = map radius (particles (sys w))
    /\ host w' = host w
    /\ mouseX (sys w') = mouseX (sys w)
    /\ mouseY (sys w') = mouseY (sys w)
    /\ animationId (sys w') = animationId (sys w)
    /\ isVisible (sys w') = isVisible (sys w)
    /\ timerId (sys w') = timerId (sys w).
Proof.
  intros w w'. subst w'. rewrite updateParticles_particles.
  rewrite length_map, map_map.
  repeat split; try reflexivity.
  apply map_ext. intros p. apply updateParticle_radius.
Qed.

(** ** The initializer of the closure *)

Lemma floor_of_quotient (a b : Z) :
  (0 < b)%Z -> Math_floor (IZR a / IZR b) = (a / b)%Z.
Proof.
  intros Hb. unfold Math_floor. apply Zfloor_eq.
  pose proof (Z.div_mod a b ltac:(lia)) as Hdm.
  pose proof (Z.mod_pos_bound a b Hb) as [Hr0 Hr1].
  assert (HbR : 0 < IZR b) by now apply (IZR_lt 0).
  apply IZR_le in Hr0. apply IZR_lt in Hr1.
  assert (Ha : IZR a = IZR b * IZR (a / b) + IZR (a mod b)).
  { rewrite <- mult_IZR, <- plus_IZR. now f_equal. }
  assert (Hq : IZR a / IZR b = IZR (a / b) + IZR (a mod b) / IZR b).
  { rewrite Ha. field. lra. }
  rewrite Hq.
  assert (0 <= IZR (a mod b) / IZR b < 1).
  { split.
    - apply Rmult_le_pos; [assumption|]. left. now apply Rinv_0_lt_compat.
    - apply (Rmult_lt_reg_r (IZR b)); [assumption|].
      unfold Rdiv. rewrite Rmult_assoc, Rinv_l by lra. lra. }
  lra.
Qed.

Lemma min_of_integers (a b : Z) : Math_min (IZR a) (IZR b) = IZR (Z.min a b).
Proof.
  unfold Math_min.
  destruct (Z.min_spec a b) as [[Hlt ->]|[Hle ->]].
  - apply Rmin_left. apply IZR_le. lia.
  - apply Rmin_right. now apply IZR_le.
Qed.

Lemma particleCount_integer b :
  ParticleSystem.particleCount b
  = IZR (Z.min 60 (innerWidth b * innerHeight b / 15000)).
Proof.
  unfold ParticleSystem.particleCount, MAX_PARTICLES, PIXELS_PER_PARTICLE.
  rewrite <- mult_IZR, floor_of_quotient by lia.
  apply min_of_integers.
Qed.

Lemma arrayFrom_length n b : length (fst (ParticleSystem.arrayFrom n b)) = n.
Proof.
  revert b. induction n as [|n IH]; intros b; [reflexivity|].
  cbn [ParticleSystem.arrayFrom].
  destruct (ParticleSystem.createParticle b) as [p b1].
  specialize (IH b1).
  destruct (ParticleSystem.arrayFrom n b1) as [ps b2].
  cbn in *. now rewrite IH.
Qed.

Lemma arrayFrom_host n b :
  exists r, snd (ParticleSystem.arrayFrom n b) = set_randoms b r.
Proof.
  revert b. induction n as [|n IH]; intros b.
  - exists (randoms b). now destruct b.
  - cbn [ParticleSystem.arrayFrom].
    destruct (ParticleSystem.createParticle b) as [p b1] eqn:Ep.
    assert (Hb1 : exists r1, b1 = set_randoms b r1).
    { unfold ParticleSystem.createParticle, Math_random in Ep.
      inversion Ep. eexists. reflexivity. }
    destruct Hb1 as [r1 ->].
    destruct (IH (set_randoms b r1)) as [r Hr].
    destruct (ParticleSystem.arrayFrom n (set_randoms b r1)) as [ps b2].
    cbn in *. exists r. now rewrite Hr.
Qed.

Lemma initParticles_particles_length w :
  length (particles (sys (ParticleSystem.initParticles w)))
  = ToLength (ParticleSystem.particleCount (host w)).
Proof. unfold ParticleSystem.initParticles. cbn. apply arrayFrom_length. Qed.

(** C3.  On a viewport of [w] by [h] pixels the count the initializer
    computes is [min(60, floor(w * h / 15000))], it is not negative, and it
    is the number of particles the initializer creates. *)
Theorem particle_count_formula :
  forall (w : World),
    (0 <= innerWidth (host w))%Z ->
    (0 <= innerHeight (host w))%Z ->
    let k := Z.min 60 (innerWidth (host w) * innerHeight (host w) / 15000) in
    ParticleSystem.particleCount (host w) = IZR k
    /\ 0 <= ParticleSystem.particleCount (host w)
    /\ (0 <= k)%Z
    /\ length (particles (sys (ParticleSystem.initParticles w))) = Z.to_nat k.
Proof.
  intros w Hw Hh k.
  assert (Hk : (0 <= k)%Z).
  { subst k. apply Z.min_glb; [lia|]. apply Z.div_pos; nia. }
  rewrite initParticles_particles_length, particleCount_integer. fold k.
  repeat split; try assumption.
  - now apply (IZR_le 0).
  - unfold ToLength, Math_floor. now rewrite ZfloorZ.
Qed.

Lemma particle_count_formula_witness :
  (0 <= innerWidth (host edgeWorld))%Z /\
  (0 <= innerHeight (host edgeWorld))%Z /\
  ParticleSystem.particleCount (host edgeWorld) = 32 /\
  length (particles (sys (ParticleSystem.initParticles edgeWorld))) = 32%nat.
Proof.
  assert (H0 : (0 <= innerWidth (host edgeWorld))%Z) by (cbn; lia).
  assert (H1 : (0 <= innerHeight (host edgeWorld))%Z) by (cbn; lia).
  pose proof (particle_count_formula edgeWorld H0 H1) as HT.
  repeat split; try assumption.
  - exact (proj1 HT).
  - exact (proj2 (proj2 (proj2 HT))).
Defined.

(** ** The driver *)

(** What the driver reads and writes: the frame queue and the last handle
    of the browser, [animationId], [isVisible], and the probes. *)
Definition same_driver (w w' : World) : Prop :=
  frameCallbacks (host w') = frameCallbacks (host w) /\
  frameHandle (host w') = frameHandle (host w) /\
  animationId (sys w') = animationId (sys w) /\
  isVisible (sys w') = isVisible (sys w) /\
  updates (sys w') = updates (sys w) /\
  draws (sys w') = draws (sys w).

Lemma same_driver_refl w : same_driver w w.
Proof. repeat split. Qed.

Lemma same_driver_trans w1 w2 w3 :
  same_driver w1 w2 -> same_driver w2 w3 -> same_driver w1 w3.
Proof. unfold same_driver. intuition congruence. Qed.

Lemma resize_same_driver w : same_driver w (ParticleSystem.resize w).
Proof. repeat split. Qed.

Lemma initParticles_same_driver w :
  same_driver w (ParticleSystem.initParticles w).
Proof.
  unfold same_driver, ParticleSystem.initParticles. cbn.
  destruct (arrayFrom_host (ToLength (ParticleSystem.particleCount (host w)))
              (host w)) as [r ->].
  repeat split.
Qed.

Lemma resizeTimer_same_driver w : same_driver w (ParticleSystem.resizeTimer w).
Proof.
  unfold ParticleSystem.resizeTimer.
  eapply same_driver_trans; [apply resize_same_driver|].
  eapply same_driver_trans; [apply initParticles_same_driver|].
  repeat split.
Qed.

Lemma debouncedResize_same_driver w :
  same_driver w (ParticleSystem.debouncedResize w).
Proof.
  unfold ParticleSystem.debouncedResize.
  destruct (timerId (sys w)); repeat split.
Qed.

(** The invariant of the driver: the frame queue holds exactly the
    callback [animationId] names, that handle is positive, and a callback
    is only queued while the system is visible. *)
Definition driver_inv (w : World) : Prop :=
  (0 <= frameHandle (host w))%Z /\
  match animationId (sys w) with
  | Some h =>
      frameCallbacks (host w) = [h] /\ (0 < h)%Z /\ isVisible (sys w) = true
  | None => frameCallbacks (host w) = []
  end.

Lemma driver_inv_same w w' : same_driver w w' -> driver_inv w -> driver_inv w'.
Proof.
  intros (Hq & Hh & Hid & Hv & _ & _). unfold driver_inv.
  now rewrite Hq, Hh, Hid, Hv.
Qed.

Lemma animate_visible w :
  isVisible (sys w) = true ->
  let h := (frameHandle (host w) + 1)%Z in
  frameCallbacks (host (ParticleSystem.animate w)) = frameCallbacks (host w) ++ [h]
  /\ frameHandle (host (ParticleSystem.animate w)) = h
  /\ animationId (sys (ParticleSystem.animate w)) = Some h
  /\ isVisible (sys (ParticleSystem.animate w)) = true
  /\ updates (sys (ParticleSystem.animate w)) = S (updates (sys w))
  /\ draws (sys (ParticleSystem.animate w)) = S (draws (sys w)).
Proof.
  intros Hv h. unfold ParticleSystem.animate. rewrite Hv. cbn.
  repeat split. assumption.
Qed.

Lemma animate_inv w :
  isVisible (sys w) = true ->
  frameCallbacks (host w) = [] ->
  (0 <= frameHandle (host w))%Z ->
  driver_inv (ParticleSystem.animate w).
Proof.
  intros Hv Hq Hh.
  destruct (animate_visible w Hv) as (Hq' & Hh' & Hid & Hv' & _).
  unfold driver_inv. rewrite Hq', Hh', Hid, Hv', Hq. cbn.
  repeat split; lia.
Qed.

Lemma truthy_positive h : (0 < h)%Z -> truthy (Some h) = true.
Proof. intros Hh. cbn. destruct (Z.eqb_spec h 0); [lia|reflexivity]. Qed.

Lemma start_inv w : driver_inv w -> driver_inv (ParticleSystem.start w).
Proof.
  intros [Hh Hinv]. unfold ParticleSystem.start. cbn [sys set_sys animationId set_isVisible].
  destruct (animationId (sys w)) as [h|] eqn:Eid.
  - destruct Hinv as (Hq & Hpos & Hv).
    rewrite (truthy_positive h Hpos). cbn [negb].
    unfold driver_inv. cbn. rewrite Eid. auto.
  - cbn [truthy negb]. apply animate_inv; cbn; auto.
Qed.

Lemma start_running_noop w :
  driver_inv w -> animationId (sys w) <> None -> ParticleSystem.start w = w.
Proof.
  intros [Hh Hinv] Hrun. unfold ParticleSystem.start.
  cbn [sys set_sys animationId set_isVisible].
  destruct (animationId (sys w)) as [h|] eqn:Eid; [|congruence].
  destruct Hinv as (Hq & Hpos & Hv).
  rewrite (truthy_positive h Hpos). cbn [negb].
  destruct w as [b s]. destruct s. cbn in *. subst. reflexivity.
Qed.

(** The system after [stop()]: nothing queued, no handle, not visible. *)
Definition stopped (w : World) : Prop :=
  frameCallbacks (host w) = [] /\
  animationId (sys w) = None /\
  isVisible (sys w) = false.

Lemma remove_single h : remove Z.eq_dec h [h] = [].
Proof. cbn. destruct (Z.eq_dec h h); [reflexivity|congruence]. Qed.

Lemma stop_stopped w : driver_inv w -> stopped (ParticleSystem.stop w).
Proof.
  intros [Hh Hinv]. unfold ParticleSystem.stop.
  cbn [sys set_sys animationId set_isVisible].
  destruct (animationId (sys w)) as [h|] eqn:Eid.
  - destruct Hinv as (Hq & Hpos & Hv).
    rewrite (truthy_positive h Hpos).
    unfold stopped. cbn. rewrite Hq, remove_single. auto.
  - unfold stopped. cbn. rewrite Eid. auto.
Qed.

Lemma stop_probes w :
  updates (sys (ParticleSystem.stop w)) = updates (sys w) /\
  draws (sys (ParticleSystem.stop w)) = draws (sys w) /\
  frameHandle (host (ParticleSystem.stop w)) = frameHandle (host w).
Proof.
  unfold ParticleSystem.stop. cbn [sys set_sys animationId set_isVisible].
  destruct (animationId (sys w)) as [h|]; [|repeat split].
  destruct (truthy (Some h)); repeat split.
Qed.

Lemma stopped_inv w :
  stopped w -> (0 <= frameHandle (host w))%Z -> driver_inv w.
Proof. intros (Hq & Hid & _) Hh. unfold driver_inv. now rewrite Hid. Qed.

Lemma stop_inv w : driver_inv w -> driver_inv (ParticleSystem.stop w).
Proof.
  intros Hinv. apply stopped_inv.
  - now apply stop_stopped.
  - destruct (stop_probes w) as (_ & _ & ->). apply Hinv.
Qed.

Lemma mem_single h h' : mem h [h'] = true -> h = h'.
Proof. cbn. rewrite orb_false_r. apply Z.eqb_eq. Qed.

Lemma step_inv e w : driver_inv w -> driver_inv (step e w).
Proof.
  intros Hinv. destruct e; cbn [step].
  - now apply start_inv.
  - now apply stop_inv.
  - eapply driver_inv_same; [apply resize_same_driver|assumption].
  - destruct (mem handle (frameCallbacks (host w))) eqn:Em; [|assumption].
    destruct Hinv as [Hh Hinv].
    destruct (animationId (sys w)) as [h|] eqn:Eid.
    + destruct Hinv as (Hq & Hpos & Hv).
      rewrite Hq in Em |- *. apply mem_single in Em. subst handle.
      rewrite remove_single. apply animate_inv; cbn; auto.
    + rewrite Hinv in Em. discriminate.
  - destruct (mem handle (timeouts (host w))); [|assumption].
    eapply driver_inv_same; [apply resizeTimer_same_driver|].
    eapply driver_inv_same; [|exact Hinv]. repeat split.
  - eapply driver_inv_same; [apply debouncedResize_same_driver|].
    eapply driver_inv_same; [|exact Hinv]. repeat split.
  - eapply driver_inv_same; [|exact Hinv]. repeat split.
  - eapply driver_inv_same; [|exact Hinv]. repeat split.
  - unfold ParticleSystem.onVisibilityChange. cbn [host set_host documentHidden set_documentHidden].
    assert (Hinv' : driver_inv (set_host w (set_documentHidden (host w) hidden))).
    { eapply driver_inv_same; [|exact Hinv]. repeat split. }
    destruct hidden; [now apply stop_inv | now apply start_inv].
  - destruct Hinv as [Hh Hinv]. unfold driver_inv. cbn.
    split; [lia|assumption].
Qed.

(** The closure right after [resize(); initParticles();] in
    [createParticleSystem], before the listeners are added. *)
Definition constructed (b : Browser) : World :=
  ParticleSystem.initParticles
    (ParticleSystem.resize
       (mkWorld (log GetContext b)
          (mkSystem [] MOUSE_OFFSCREEN MOUSE_OFFSCREEN None true None 0 0))).

Definition listeners : list Call :=
  [AddEventListener Window Resize;
   AddEventListener CanvasParent MouseMove;
   AddEventListener CanvasParent MouseLeave;
   AddEventListener Document VisibilityChange].

Lemma createParticleSystem_context b :
  context2d b = true ->
  createParticleSystem b
  = (logs listeners (host (constructed b)), Some (sys (constructed b))).
Proof.
  intros Hc. unfold createParticleSystem.
  cbn [context2d log set_calls]. now rewrite Hc.
Qed.

Lemma createParticleSystem_no_context b :
  context2d b = false -> createParticleSystem b = (log GetContext b, None).
Proof.
  intros Hc. unfold createParticleSystem.
  cbn [context2d log set_calls]. now rewrite Hc.
Qed.

Lemma constructed_driver b :
  frameCallbacks (host (constructed b)) = frameCallbacks b /\
  frameHandle (host (constructed b)) = frameHandle b /\
  animationId (sys (constructed b)) = None /\
  isVisible (sys (constructed b)) = true /\
  updates (sys (constructed b)) = O /\
  draws (sys (constructed b)) = O.
Proof.
  unfold constructed.
  match goal with
  | |- context [ParticleSystem.initParticles ?w] =>
      destruct (initParticles_same_driver w) as (-> & -> & -> & -> & -> & ->)
  end.
  repeat split.
Qed.

Lemma created_inv b b' s :
  fresh b -> createParticleSystem b = (b', Some s) -> driver_inv (mkWorld b' s).
Proof.
  intros (Hq & _ & Hh & _) Hc.
  destruct (context2d b) eqn:Ectx.
  - pose proof (createParticleSystem_context b Ectx) as E. rewrite Hc in E.
    destruct (constructed_driver b) as (Hq' & Hh' & Hid & _).
    set (W := constructed b) in *. clearbody W.
    injection E as -> ->.
    unfold driver_inv. cbn. rewrite Hh', Hid, Hq'. auto.
  - rewrite (createParticleSystem_no_context b Ectx) in Hc. discriminate.
Qed.

Lemma reachable_inv w : reachable w -> driver_inv w.
Proof.
  induction 1 as [b b' s Hf Hc | e w _ IH].
  - eapply created_inv; eassumption.
  - now apply step_inv.
Qed.

Lemma stopped_same w w' : same_driver w w' -> stopped w -> stopped w'.
Proof.
  intros (Hq & _ & Hid & Hv & _ & _). unfold stopped.
  now rewrite Hq, Hid, Hv.
Qed.

Lemma stop_when_stopped w : stopped w -> same_driver w (ParticleSystem.stop w).
Proof.
  intros (Hq & Hid & Hv). unfold ParticleSystem.stop.
  cbn [sys set_sys animationId set_isVisible]. rewrite Hid.
  unfold same_driver. cbn. rewrite Hv. repeat split.
Qed.

Definition quiet (w w' : World) : Prop :=
  stopped w' /\
  updates (sys w') = updates (sys w) /\
  draws (sys w') = draws (sys w).

Lemma same_driver_quiet w w' : stopped w -> same_driver w w' -> quiet w w'.
Proof.
  intros Hs Hsd. split; [now apply (stopped_same w)|].
  destruct Hsd as (_ & _ & _ & _ & Hu & Hd). auto.
Qed.

(** An event that does not call [start()] leaves a stopped system stopped
    and runs neither the physics step nor the renderer. *)
Lemma stopped_step e w :
  stopped w -> calls_start e = false -> quiet w (step e w).
Proof.
  intros Hs He.
  destruct e; cbn [step]; cbn in He; try discriminate;
    [apply same_driver_quiet; [exact Hs|] .. | ].
  - now apply stop_when_stopped.
  - apply resize_same_driver.
  - destruct Hs as (Hq & _). rewrite Hq. cbn. apply same_driver_refl.
  - destruct (mem handle (timeouts (host w))); [|apply same_driver_refl].
    eapply same_driver_trans; [|apply resizeTimer_same_driver]. repeat split.
  - eapply same_driver_trans; [|apply debouncedResize_same_driver]. repeat split.
  - repeat split.
  - repeat split.
  - destruct hidden; [|discriminate].
    unfold ParticleSystem.onVisibilityChange.
    cbn [host set_host documentHidden set_documentHidden].
    eapply same_driver_trans; [|apply stop_when_stopped].
    + repeat split.
    + eapply stopped_same; [|exact Hs]. repeat split.
  - destruct Hs as (Hq & Hid & Hv). unfold quiet, stopped. cbn. auto.
Qed.

Lemma stopped_run evs w :
  stopped w ->
  forallb (fun e => negb (calls_start e)) evs = true ->
  quiet w (run evs w).
Proof.
  revert w. induction evs as [|e evs IH]; intros w Hs Hevs.
  - cbn. repeat split; apply Hs.
  - cbn in Hevs. apply andb_true_iff in Hevs. destruct Hevs as [He Hevs].
    apply negb_true_iff in He.
    destruct (stopped_step e w Hs He) as (Hs1 & Hu1 & Hd1).
    destruct (IH (step e w) Hs1 Hevs) as (Hs2 & Hu2 & Hd2).
    cbn [run]. repeat split; try apply Hs2; congruence.
Qed.

Lemma start_when_stopped w :
  stopped w ->
  updates (sys (ParticleSystem.start w)) = S (updates (sys w)) /\
  draws (sys (ParticleSystem.start w)) = S (draws (sys w)) /\
  length (frameCallbacks (host (ParticleSystem.start w))) = 1%nat.
Proof.
  intros (Hq & Hid & Hv). unfold ParticleSystem.start.
  cbn [sys set_sys animationId set_isVisible]. rewrite Hid. cbn [truthy negb].
  match goal with
  | |- context [ParticleSystem.animate ?w0] =>
      destruct (animate_visible w0 eq_refl) as (Hq' & _ & _ & _ & Hu & Hd)
  end.
  rewrite Hq', Hu, Hd. cbn. rewrite Hq. repeat split.
Qed.

Lemma start_idle w :
  animationId (sys w) = None ->
  animationId (sys (ParticleSystem.start w)) = Some (frameHandle (host w) + 1)%Z.
Proof.
  intros Hid. unfold ParticleSystem.start.
  cbn [sys set_sys animationId set_isVisible]. rewrite Hid. cbn [truthy negb].
  match goal with
  | |- context [ParticleSystem.animate ?w0] =>
      destruct (animate_visible w0 eq_refl) as (_ & _ & Hid' & _)
  end.
  rewrite Hid'. reflexivity.
Qed.

(** A page with the particle system just created, and the same page once
    [start()] has run. *)
Definition demoWorld : World :=
  mkWorld (logs listeners (host (constructed demoBrowser)))
          (sys (constructed demoBrowser)).

Definition runningWorld : World := step CallStart demoWorld.

Lemma demoWorld_reachable : reachable demoWorld.
Proof.
  apply (reach_create demoBrowser).
  - repeat split; cbn; lia.
  - now apply createParticleSystem_context.
Qed.

Lemma runningWorld_reachable : reachable runningWorld.
Proof. apply reach_step, demoWorld_reachable. Qed.

Lemma runningWorld_running : animationId (sys runningWorld) <> None.
Proof.
  unfold runningWorld. cbn [step]. rewrite start_idle; [discriminate|].
  unfold demoWorld. cbn [sys]. apply constructed_driver.
Qed.

(** C4.  In every world the page can reach, at most one frame callback of
    the system is outstanding, and [start()] on a system that holds a
    handle changes nothing at all: no second callback is requested. *)
Theorem one_outstanding_frame_callback :
  forall (w : World),
    reachable w ->
    (length (frameCallbacks (host w)) <= 1)%nat
    /\ (animationId (sys w) <> None -> ParticleSystem.start w = w)
    /\ (length (frameCallbacks (host (ParticleSystem.start w))) <= 1)%nat.
Proof.
  intros w Hr. pose proof (reachable_inv w Hr) as Hinv.
  assert (Hlen : forall w0, driver_inv w0 ->
                   (length (frameCallbacks (host w0)) <= 1)%nat).
  { intros w0 [_ H0]. destruct (animationId (sys w0)).
    - destruct H0 as (-> & _). cbn. lia.
    - rewrite H0. cbn. lia. }
  repeat split.
  - now apply Hlen.
  - now apply start_running_noop.
  - apply Hlen. now apply start_inv.
Qed.

Lemma one_outstanding_frame_callback_witness :
  reachable runningWorld /\
  (length (frameCallbacks (host runningWorld)) <= 1)%nat /\
  ParticleSystem.start runningWorld = runningWorld.
Proof.
  pose proof (one_outstanding_frame_callback runningWorld
                runningWorld_reachable) as (H1 & H2 & _).
  repeat split.
  - exact runningWorld_reachable.
  - exact H1.
  - exact (H2 runningWorld_running).
Defined.

(** C5.  After [stop()] nothing is left in the frame queue, and whatever
    happens next, as long as nothing calls [start()], neither the physics
    step nor the renderer runs; the next [start()] runs one frame at once
    and queues the following one. *)
Theorem no_frames_after_stop :
  forall (w : World) (evs : list Event),
    reachable w ->
    forallb (fun e => negb (calls_start e)) evs = true ->
    let w0 := ParticleSystem.stop w in
    let w1 := run evs w0 in
    frameCallbacks (host w0) = []
    /\ updates (sys w0) = updates (sys w)
    /\ draws (sys w0) = draws (sys w)
    /\ frameCallbacks (host w1) = []
    /\ updates (sys w1) = updates (sys w)
    /\ draws (sys w1) = draws (sys w)
    /\ updates (sys (ParticleSystem.start w1)) = S (updates (sys w))
    /\ draws (sys (ParticleSystem.start w1)) = S (draws (sys w)).
Proof.
  intros w evs Hr Hevs w0 w1.
  pose proof (stop_stopped w (reachable_inv w Hr)) as Hs0.
  destruct (stop_probes w) as (Hu0 & Hd0 & _).
  destruct (stopped_run evs w0 Hs0 Hevs) as (Hs1 & Hu1 & Hd1).
  destruct (start_when_stopped (run evs w0) Hs1) as (Hu2 & Hd2 & _).
  fold w0 in Hu0, Hd0. fold w1 in Hs1, Hu1, Hd1, Hu2, Hd2.
  repeat split; try apply Hs0; try apply Hs1; congruence.
Qed.

Definition quietEvents : list Event :=
  [FrameFires 1; MouseMoved 10 10; WindowResized 1024 768; TimerFires 1;
   VisibilityChanged true; CallStop; CallResize; ForeignFrame; FrameFires 2;
   MouseLeft].

Lemma no_frames_after_stop_witness :
  reachable runningWorld /\
  updates (sys (run quietEvents (ParticleSystem.stop runningWorld)))
  = updates (sys runningWorld) /\
  draws (sys (run quietEvents (ParticleSystem.stop runningWorld)))
  = draws (sys runningWorld).
Proof.
  pose proof (no_frames_after_stop runningWorld quietEvents
                runningWorld_reachable eq_refl) as HT.
  cbv zeta in HT.
  destruct HT as (_ & _ & _ & _ & Hu & Hd & _).
  repeat split.
  - exact runningWorld_reachable.
  - exact Hu.
  - exact Hd.
Defined.

(** ** The exported initializer *)

(** Calls to the canvas, its context, or the animation-frame and timer
    interfaces, and registrations of listeners. *)
Definition touches_canvas_or_animation (c : Call) : bool :=
  match c with
  | MatchMedia | GetElementById | GetComputedStyle => false
  | _ => true
  end.

(** C8.  With the reduced-motion preference set, the exported
    [initParticles()] only asks for the media query and returns: no system
    is created, the log grows by that one call, which is no canvas,
    context or animation call, and the frame and timer queues are as
    before. *)
Theorem reduced_motion_returns_early :
  forall (b : Browser),
    reducedMotion b = true ->
    initParticles b = (log MatchMedia b, None)
    /\ snd (initParticles b) = None
    /\ calls (fst (initParticles b)) = MatchMedia :: calls b
    /\ filter touches_canvas_or_animation (calls (fst (initParticles b)))
       = filter touches_canvas_or_animation (calls b)
    /\ frameCallbacks (fst (initParticles b)) = frameCallbacks b
    /\ frameHandle (fst (initParticles b)) = frameHandle b
    /\ timeouts (fst (initParticles b)) = timeouts b.
Proof.
  intros b Hrm.
  assert (E : initParticles b = (log MatchMedia b, None)).
  { unfold initParticles. cbn [reducedMotion log set_calls]. now rewrite Hrm. }
  rewrite E. repeat split.
Qed.

Definition calmBrowser : Browser :=
  mkBrowser 800 600 1 true true true false [] 0 [] 0 (fun _ => 1 / 2) [].

Lemma reduced_motion_returns_early_witness :
  reducedMotion calmBrowser = true /\
  initParticles calmBrowser = (log MatchMedia calmBrowser, None).
Proof.
  split; [reflexivity|].
  exact (proj1 (reduced_motion_returns_early calmBrowser eq_refl)).
Defined.

(** C9.  When the canvas gives no 2D context, [createParticleSystem]
    returns [null] after that one call, and the exported initializer, which
    tests the handle before it calls [start()], returns without a system:
    its calls are the media query, the canvas lookup and the context
    request at most, no listener is added, and nothing is queued. *)
Theorem no_context_no_system :
  forall (b : Browser),
    context2d b = false ->
    createParticleSystem b = (log GetContext b, None)
    /\ initParticles b
       = (if reducedMotion b then log MatchMedia b
          else if canvasPresent b
               then log GetContext (log GetElementById (log MatchMedia b))
               else log GetElementById (log MatchMedia b),
          None)
    /\ frameCallbacks (fst (initParticles b)) = frameCallbacks b
    /\ frameHandle (fst (initParticles b)) = frameHandle b
    /\ timeouts (fst (initParticles b)) = timeouts b
    /\ (forall c, In c (calls (fst (initParticles b))) ->
          In c (calls b) \/ c = MatchMedia \/ c = GetElementById \/ c = GetContext).
Proof.
  intros b Hctx.
  pose proof (createParticleSystem_no_context b Hctx) as Ec.
  assert (E : initParticles b
              = (if reducedMotion b then log MatchMedia b
                 else if canvasPresent b
                      then log GetContext (log GetElementById (log MatchMedia b))
                      else log GetElementById (log MatchMedia b),
                 None)).
  { unfold initParticles. cbn [reducedMotion canvasPresent log set_calls].
    destruct (reducedMotion b) eqn:Erm; [reflexivity|].
    destruct (canvasPresent b) eqn:Ecv; cbn [negb]; [|reflexivity].
    rewrite createParticleSystem_no_context by exact Hctx. reflexivity. }
  split; [exact Ec|]. split; [exact E|].
  rewrite E.
  destruct (reducedMotion b); [|destruct (canvasPresent b)]; cbn;
    repeat split; intros c Hc; intuition.
Qed.

Definition contextlessBrowser : Browser :=
  mkBrowser 800 600 1 false true false false [] 0 [] 0 (fun _ => 1 / 2) [].

Lemma no_context_no_system_witness :
  context2d contextlessBrowser = false /\
  createParticleSystem contextlessBrowser = (log GetContext contextlessBrowser, None) /\
  initParticles contextlessBrowser
  = (log GetContext (log GetElementById (log MatchMedia contextlessBrowser)), None).
Proof.
  pose proof (no_context_no_system contextlessBrowser eq_refl) as (H1 & H2 & _).
  split; [reflexivity|]. split; [exact H1 | exact H2].
Defined.

(** * Further properties of the module *)

(** ** The repulsion impulse *)





(** ** The wrap *)

(** Wrapping twice is wrapping once: a wrapped position is inside the
    viewport, where the wrap changes nothing. *)
Theorem wrap_idempotent :
  forall (W H : R) (p : Particle),
    0 <= W -> 0 <= H ->
    wrap W H (wrap W H p) = wrap W H p.
Proof.
  intros W H p HW HH.
  pose proof (wrap_x_range W H p HW) as Hx.
  pose proof (wrap_y_range W H p HH) as Hy.
  set (q := wrap W H p) in *.
  destruct (wrap_velocity W H q) as (Hvx & Hvy & Hr).
  apply particle_ext; try assumption.
  - rewrite wrap_x. cbn zeta. num_cases; lra.
  - rewrite wrap_y. cbn zeta. num_cases; lra.
Qed.

Lemma wrap_idempotent_witness :
  0 <= 800 /\ 0 <= 600 /\
  wrap 800 600 (wrap 800 600 (mkParticle (-1) 601 0 0 1))
  = wrap 800 600 (mkParticle (-1) 601 0 0 1).
Proof.
  assert (H0 : 0 <= 800) by lra.
  assert (H1 : 0 <= 600) by lra.
  split; [exact H0|]. split; [exact H1|].
  exact (wrap_idempotent 800 600 (mkParticle (-1) 601 0 0 1) H0 H1).
Defined.

(** ** Drift with the pointer away *)











(** ** The particle set *)

Lemma initParticles_capped w :
  (length (particles (sys (ParticleSystem.initParticles w))) <= 60)%nat.
Proof.
  rewrite initParticles_particles_length, particleCount_integer.
  unfold ToLength, Math_floor. rewrite ZfloorZ. lia.
Qed.

Lemma animate_particles_length w :
  length (particles (sys (ParticleSystem.animate w)))
  = length (particles (sys w)).
Proof.
  unfold ParticleSystem.animate. destruct (isVisible (sys w)); cbn; [|reflexivity].
  apply length_map.
Qed.

Lemma start_particles_length w :
  length (particles (sys (ParticleSystem.start w)))
  = length (particles (sys w)).
Proof.
  unfold ParticleSystem.start. cbn [sys set_sys animationId set_isVisible].
  destruct (truthy (animationId (sys w))); cbn [negb]; [reflexivity|].
  now rewrite animate_particles_length.
Qed.

Lemma stop_particles w :
  particles (sys (ParticleSystem.stop w)) = particles (sys w).
Proof.
  unfold ParticleSystem.stop. cbn [sys set_sys animationId set_isVisible].
  destruct (animationId (sys w)) as [h|]; [|reflexivity].
  destruct (truthy (Some h)); reflexivity.
Qed.

Lemma debouncedResize_particles w :
  particles (sys (ParticleSystem.debouncedResize w)) = particles (sys w).
Proof.
  unfold ParticleSystem.debouncedResize. destruct (timerId (sys w)); reflexivity.
Qed.

Lemma step_particles_capped e w :
  (length (particles (sys w)) <= 60)%nat ->
  (length (particles (sys (step e w))) <= 60)%nat.
Proof.
  intros Hc. destruct e; cbn [step].
  - now rewrite start_particles_length.
  - now rewrite stop_particles.
  - exact Hc.
  - destruct (mem handle (frameCallbacks (host w))); [|exact Hc].
    now rewrite animate_particles_length.
  - destruct (mem handle (timeouts (host w))); [|exact Hc].
    unfold ParticleSystem.resizeTimer. cbn [sys set_sys particles set_timerId].
    apply initParticles_capped.
  - now rewrite debouncedResize_particles.
  - exact Hc.
  - exact Hc.
  - unfold ParticleSystem.onVisibilityChange.
    cbn [host set_host documentHidden set_documentHidden].
    destruct hidden; [now rewrite stop_particles | now rewrite start_particles_length].
  - exact Hc.
Qed.

Lemma created_world b b' s :
  createParticleSystem b = (b', Some s) ->
  context2d b = true /\
  b' = logs listeners (host (constructed b)) /\
  s = sys (constructed b).
Proof.
  intros Hc. destruct (context2d b) eqn:Ectx.
  - pose proof (createParticleSystem_context b Ectx) as E. rewrite Hc in E.
    set (W := constructed b) in *. clearbody W.
    injection E as -> ->. auto.
  - rewrite (createParticleSystem_no_context b Ectx) in Hc. discriminate.
Qed.

(** Whatever the viewport and whatever happens on the page, the system
    never holds more than 60 particles. *)
Theorem particle_count_never_exceeds_cap :
  forall (w : World),
    reachable w -> (length (particles (sys w)) <= 60)%nat.
Proof.
  induction 1 as [b b' s Hf Hc | e w _ IH].
  - destruct (created_world b b' s Hc) as (_ & _ & ->).
    cbn [sys]. unfold constructed. apply initParticles_capped.
  - now apply step_particles_capped.
Qed.

Definition resizedWorld : World :=
  step (TimerFires 1) (step (WindowResized 1600 1200) runningWorld).

Lemma resizedWorld_reachable : reachable resizedWorld.
Proof. do 2 apply reach_step. exact runningWorld_reachable. Qed.

Lemma particle_count_never_exceeds_cap_witness :
  reachable resizedWorld /\ (length (particles (sys resizedWorld)) <= 60)%nat.
Proof.
  split; [exact resizedWorld_reachable|].
  exact (particle_count_never_exceeds_cap resizedWorld resizedWorld_reachable).
Defined.

(** ** New particles *)







(** ** The renderer *)












(** ** The debounced resize *)

(** The resize timer: the timer queue holds exactly the timer [timerId]
    names. *)
Definition timer_inv (w : World) : Prop :=
  timeouts (host w)
  = match timerId (sys w) with Some t => [t] | None => [] end.

Definition same_timer (w w' : World) : Prop :=
  timeouts (host w') = timeouts (host w) /\
  timeoutHandle (host w') = timeoutHandle (host w) /\
  timerId (sys w') = timerId (sys w).

Lemma timer_inv_same w w' : same_timer w w' -> timer_inv w -> timer_inv w'.
Proof. intros (Hq & _ & Hid). unfold timer_inv. now rewrite Hq, Hid. Qed.

Lemma animate_same_timer w : same_timer w (ParticleSystem.animate w).
Proof.
  unfold ParticleSystem.animate. destruct (isVisible (sys w)); repeat split.
Qed.

Lemma start_same_timer w : same_timer w (ParticleSystem.start w).
Proof.
  unfold ParticleSystem.start. cbn [sys set_sys animationId set_isVisible].
  destruct (truthy (animationId (sys w))); cbn [negb]; [repeat split|].
  match goal with
  | |- same_timer _ (ParticleSystem.animate ?w0) =>
      destruct (animate_same_timer w0) as (H1 & H2 & H3)
  end.
  unfold same_timer. rewrite H1, H2, H3. repeat split.
Qed.

Lemma stop_same_timer w : same_timer w (ParticleSystem.stop w).
Proof.
  unfold ParticleSystem.stop. cbn [sys set_sys animationId set_isVisible].
  destruct (animationId (sys w)) as [h|]; [|repeat split].
  destruct (truthy (Some h)); repeat split.
Qed.

Lemma initParticles_same_timer w :
  same_timer w (ParticleSystem.initParticles w).
Proof.
  unfold same_timer, ParticleSystem.initParticles. cbn.
  destruct (arrayFrom_host (ToLength (ParticleSystem.particleCount (host w)))
              (host w)) as [r ->].
  repeat split.
Qed.

Lemma debouncedResize_timer w :
  timer_inv w ->
  let t := (timeoutHandle (host w) + 1)%Z in
  timerId (sys (ParticleSystem.debouncedResize w)) = Some t
  /\ timeouts (host (ParticleSystem.debouncedResize w)) = [t]
  /\ timeoutHandle (host (ParticleSystem.debouncedResize w)) = t.
Proof.
  intros Hinv t. subst t. unfold timer_inv in Hinv.
  unfold ParticleSystem.debouncedResize.
  destruct (timerId (sys w)) as [t0|]; cbn; rewrite Hinv; cbn.
  - destruct (Z.eq_dec t0 t0); [|congruence]. repeat split.
  - repeat split.
Qed.

Lemma resizeTimer_timer w :
  timeouts (host w) = [] ->
  timerId (sys (ParticleSystem.resizeTimer w)) = None
  /\ timeouts (host (ParticleSystem.resizeTimer w)) = [].
Proof.
  intros Hq. unfold ParticleSystem.resizeTimer.
  cbn [sys set_sys host timerId set_timerId]. split; [reflexivity|].
  match goal with
  | |- timeouts (host (ParticleSystem.initParticles ?w0)) = _ =>
      destruct (initParticles_same_timer w0) as (-> & _ & _)
  end.
  exact Hq.
Qed.

Lemma step_timer_inv e w : timer_inv w -> timer_inv (step e w).
Proof.
  intros Hinv. destruct e; cbn [step].
  - eapply timer_inv_same; [apply start_same_timer|exact Hinv].
  - eapply timer_inv_same; [apply stop_same_timer|exact Hinv].
  - exact Hinv.
  - destruct (mem handle (frameCallbacks (host w))); [|exact Hinv].
    eapply timer_inv_same; [apply animate_same_timer|exact Hinv].
  - destruct (mem handle (timeouts (host w))) eqn:Em; [|exact Hinv].
    unfold timer_inv in Hinv.
    destruct (timerId (sys w)) as [t|] eqn:Et.
    + rewrite Hinv in Em |- *. apply mem_single in Em. subst handle.
      rewrite remove_single.
      match goal with
      | |- timer_inv (ParticleSystem.resizeTimer ?w0) =>
          destruct (resizeTimer_timer w0 eq_refl) as (Hid & Hq)
      end.
      unfold timer_inv. now rewrite Hid, Hq.
    + rewrite Hinv in Em. discriminate.
  - match goal with
    | |- timer_inv (ParticleSystem.debouncedResize ?w0) =>
        destruct (debouncedResize_timer w0 Hinv) as (Hid & Hq & _)
    end.
    unfold timer_inv. now rewrite Hid, Hq.
  - exact Hinv.
  - exact Hinv.
  - unfold ParticleSystem.onVisibilityChange.
    cbn [host set_host documentHidden set_documentHidden].
    destruct hidden;
      (eapply timer_inv_same; [apply stop_same_timer || apply start_same_timer|]);
      exact Hinv.
  - exact Hinv.
Qed.

Lemma constructed_timer b :
  timeouts (host (constructed b)) = timeouts b /\
  timerId (sys (constructed b)) = None.
Proof.
  unfold constructed.
  match goal with
  | |- context [ParticleSystem.initParticles ?w] =>
      destruct (initParticles_same_timer w) as (-> & _ & ->)
  end.
  split; reflexivity.
Qed.

Lemma reachable_timer_inv w : reachable w -> timer_inv w.
Proof.
  induction 1 as [b b' s Hf Hc | e w _ IH].
  - destruct (created_world b b' s Hc) as (_ & -> & ->).
    destruct (constructed_timer b) as (Hq & Hid).
    destruct Hf as (_ & Hq0 & _).
    unfold timer_inv. cbn [host sys]. rewrite Hid.
    unfold logs. cbn [timeouts set_calls]. now rewrite Hq, Hq0.
  - now apply step_timer_inv.
Qed.

Lemma reachable_run evs w : reachable w -> reachable (run evs w).
Proof.
  revert w. induction evs as [|e evs IH]; intros w Hr; [exact Hr|].
  cbn [run]. apply IH. now apply reach_step.
Qed.

Lemma run_app l1 l2 w : run (l1 ++ l2) w = run l2 (run l1 w).
Proof. revert w. induction l1 as [|e l1 IH]; intros w; cbn; auto. Qed.

Definition resizeTo (d : Z * Z) : Event := WindowResized (fst d) (snd d).

Lemma resize_burst_particles dims w :
  particles (sys (run (map resizeTo dims) w)) = particles (sys w).
Proof.
  revert w. induction dims as [|d dims IH]; intros w; [reflexivity|].
  cbn [map run]. rewrite IH. unfold resizeTo. cbn [step].
  now rewrite debouncedResize_particles.
Qed.

Lemma debouncedResize_viewport w :
  innerWidth (host (ParticleSystem.debouncedResize w)) = innerWidth (host w)
  /\ innerHeight (host (ParticleSystem.debouncedResize w)) = innerHeight (host w).
Proof.
  unfold ParticleSystem.debouncedResize.
  destruct (timerId (sys w)); split; reflexivity.
Qed.

(** In every world the page can reach at most one resize timer is
    pending.  After a burst of resize events, however long, exactly one
    timer is pending and the particles are still the old ones; when that
    timer fires, the particle set is made anew, once, for the last
    viewport of the burst, and no timer is left. *)
Theorem resize_burst_reinitializes_once :
  forall (w : World) (dims : list (Z * Z)) (W H : Z),
    reachable w ->
    let w1 := run (map resizeTo (dims ++ [(W, H)])) w in
    (length (timeouts (host w)) <= 1)%nat
    /\ exists t,
         timerId (sys w1) = Some t
         /\ timeouts (host w1) = [t]
         /\ particles (sys w1) = particles (sys w)
         /\ let w2 := step (TimerFires t) w1 in
            length (particles (sys w2)) = Z.to_nat (Z.min 60 (W * H / 15000))
            /\ timerId (sys w2) = None
            /\ timeouts (host w2) = [].
Proof.
  intros w dims W H Hr w1. split.
  { pose proof (reachable_timer_inv w Hr) as Hinv. unfold timer_inv in Hinv.
    rewrite Hinv. destruct (timerId (sys w)); cbn; lia. }
  assert (Hp : particles (sys w1) = particles (sys w))
    by apply resize_burst_particles.
  subst w1. rewrite map_app, run_app in *. cbn [map run] in *.
  set (w0 := run (map resizeTo dims) w) in *.
  assert (Hinv0 : timer_inv w0)
    by (apply reachable_timer_inv, reachable_run, Hr).
  unfold resizeTo in *. cbn [fst snd step] in *.
  set (wv := set_host w0 (set_viewport (host w0) W H)) in *.
  assert (Hinvv : timer_inv wv) by exact Hinv0.
  destruct (debouncedResize_timer wv Hinvv) as (Hid & Hq & _).
  destruct (debouncedResize_viewport wv) as (Hvw & Hvh).
  set (w1 := ParticleSystem.debouncedResize wv) in *.
  exists (timeoutHandle (host wv) + 1)%Z.
  split; [exact Hid|]. split; [exact Hq|]. split; [exact Hp|].
  cbn zeta. cbn [step]. rewrite Hq.
  assert (Em : mem (timeoutHandle (host wv) + 1) [(timeoutHandle (host wv) + 1)%Z]
               = true).
  { cbn. now rewrite Z.eqb_refl. }
  rewrite Em, remove_single.
  match goal with
  | |- context [ParticleSystem.resizeTimer ?wt] =>
      destruct (resizeTimer_timer wt eq_refl) as (Hid2 & Hq2);
      set (w3 := wt) in *
  end.
  split; [|split; assumption].
  unfold ParticleSystem.resizeTimer. cbn [sys set_sys particles set_timerId].
  rewrite initParticles_particles_length, particleCount_integer.
  unfold ToLength, Math_floor. rewrite ZfloorZ.
  subst w3. cbn [host ParticleSystem.resize set_host innerWidth innerHeight
                 logs set_calls set_timeouts].
  now rewrite Hvw, Hvh.
Qed.

Lemma resize_burst_reinitializes_once_witness :
  reachable runningWorld /\
  exists t,
    timerId (sys (run (map resizeTo [(1024, 768); (1600, 1200)]%Z) runningWorld))
    = Some t
    /\ length (particles
                 (sys (step (TimerFires t)
                         (run (map resizeTo [(1024, 768); (1600, 1200)]%Z)
                            runningWorld))))
       = 60%nat.
Proof.
  split; [exact runningWorld_reachable|].
  destruct (resize_burst_reinitializes_once runningWorld [(1024, 768)%Z]
              1600%Z 1200%Z runningWorld_reachable)
    as (_ & t & Hid & _ & _ & Hlen & _).
  exists t. split; [exact Hid | exact Hlen].
Defined.

(** ** Frames *)

Lemma animate_probes w :
  updates (sys (ParticleSystem.animate w))
  = ((if isVisible (sys w) then 1 else 0) + updates (sys w))%nat
  /\ draws (sys (ParticleSystem.animate w))
     = ((if isVisible (sys w) then 1 else 0) + draws (sys w))%nat.
Proof.
  unfold ParticleSystem.animate. destruct (isVisible (sys w)); split; reflexivity.
Qed.

Lemma start_probes w :
  exists k, (k <= 1)%nat
    /\ updates (sys (ParticleSystem.start w)) = (k + updates (sys w))%nat
    /\ draws (sys (ParticleSystem.start w)) = (k + draws (sys w))%nat.
Proof.
  unfold ParticleSystem.start. cbn [sys set_sys animationId set_isVisible].
  destruct (truthy (animationId (sys w))); cbn [negb].
  - exists 0%nat. repeat split. lia.
  - match goal with
    | |- context [ParticleSystem.animate ?w0] =>
        destruct (animate_probes w0) as (-> & ->)
    end.
    exists 1%nat. repeat split. lia.
Qed.

(** One event runs at most one frame, and a frame is one physics step and
    one rendering. *)
Lemma step_probes e w :
  exists k, (k <= 1)%nat
    /\ updates (sys (step e w)) = (k + updates (sys w))%nat
    /\ draws (sys (step e w)) = (k + draws (sys w))%nat.
Proof.
  assert (Hsame : forall w', same_driver w w' ->
            exists k, (k <= 1)%nat
              /\ updates (sys w') = (k + updates (sys w))%nat
              /\ draws (sys w') = (k + draws (sys w))%nat).
  { intros w' (_ & _ & _ & _ & Hu & Hd). exists 0%nat. cbn. auto. }
  destruct e; cbn [step].
  - apply start_probes.
  - destruct (stop_probes w) as (Hu & Hd & _). exists 0%nat. cbn. auto.
  - apply Hsame, resize_same_driver.
  - destruct (mem handle (frameCallbacks (host w))).
    + match goal with
      | |- context [ParticleSystem.animate ?w0] =>
          destruct (animate_probes w0) as (-> & ->)
      end.
      cbn [sys set_host].
      exists (if isVisible (sys w) then 1 else 0)%nat.
      repeat split. destruct (isVisible (sys w)); lia.
    + apply Hsame, same_driver_refl.
  - destruct (mem handle (timeouts (host w))); [|apply Hsame, same_driver_refl].
    apply Hsame.
    eapply same_driver_trans; [|apply resizeTimer_same_driver]. repeat split.
  - apply Hsame.
    eapply same_driver_trans; [|apply debouncedResize_same_driver]. repeat split.
  - apply Hsame. repeat split.
  - apply Hsame. repeat split.
  - unfold ParticleSystem.onVisibilityChange.
    cbn [host set_host documentHidden set_documentHidden].
    destruct hidden.
    + match goal with
      | |- context [ParticleSystem.stop ?w0] =>
          destruct (stop_probes w0) as (Hu & Hd & _)
      end.
      exists 0%nat. cbn in *. auto.
    + match goal with
      | |- context [ParticleSystem.start ?w0] =>
          destruct (start_probes w0) as (k & Hk & Hu & Hd)
      end.
      exists k. cbn in *. auto.
  - exists 0%nat. cbn. auto.
Qed.

(** The physics step and the renderer run in lockstep: in every world the
    page can reach, [updateParticles] and [draw] have run the same number
    of times, and no single event adds more than one run of each. *)
Theorem physics_and_render_in_lockstep :
  forall (w : World) (e : Event),
    reachable w ->
    updates (sys w) = draws (sys w)
    /\ (updates (sys w) <= updates (sys (step e w)) <= S (updates (sys w)))%nat.
Proof.
  intros w e Hr. split.
  - clear e. induction Hr as [b b' s Hf Hc | e w _ IH].
    + destruct (created_world b b' s Hc) as (_ & _ & ->).
      destruct (constructed_driver b) as (_ & _ & _ & _ & Hu & Hd).
      cbn [sys]. now rewrite Hu, Hd.
    + destruct (step_probes e w) as (k & _ & -> & ->). now rewrite IH.
  - destruct (step_probes e w) as (k & Hk & -> & _). lia.
Qed.

Lemma physics_and_render_in_lockstep_witness :
  reachable runningWorld /\
  updates (sys runningWorld) = draws (sys runningWorld) /\
  (updates (sys (step (FrameFires 1) runningWorld))
   <= S (updates (sys runningWorld)))%nat.
Proof.
  destruct (physics_and_render_in_lockstep runningWorld (FrameFires 1)
              runningWorld_reachable) as (H1 & _ & H2).
  split; [exact runningWorld_reachable|]. split; [exact H1 | exact H2].
Defined.

(** The handle the system holds was issued by the browser, so it is not
    above the last handle issued. *)
Definition handle_issued (w : World) : Prop :=
  match animationId (sys w) with
  | Some h => (h <= frameHandle (host w))%Z
  | None => True
  end.

Lemma handle_issued_same w w' :
  same_driver w w' -> handle_issued w -> handle_issued w'.
Proof.
  intros (_ & Hh & Hid & _). unfold handle_issued. now rewrite Hh, Hid.
Qed.

Lemma animate_handle_issued w :
  handle_issued w -> handle_issued (ParticleSystem.animate w).
Proof.
  unfold handle_issued, ParticleSystem.animate.
  destruct (isVisible (sys w)); cbn; [lia|auto].
Qed.

Lemma start_handle_issued w :
  handle_issued w -> handle_issued (ParticleSystem.start w).
Proof.
  intros Hi. unfold ParticleSystem.start.
  cbn [sys set_sys animationId set_isVisible].
  destruct (truthy (animationId (sys w))); cbn [negb]; [exact Hi|].
  apply animate_handle_issued. exact Hi.
Qed.

Lemma stop_handle_issued w :
  handle_issued w -> handle_issued (ParticleSystem.stop w).
Proof.
  intros Hi. unfold ParticleSystem.stop.
  cbn [sys set_sys animationId set_isVisible].
  destruct (animationId (sys w)) as [h|] eqn:Eid.
  - destruct (truthy (Some h)); [exact I|].
    unfold handle_issued in *. cbn. now rewrite Eid in *.
  - unfold handle_issued. cbn. now rewrite Eid.
Qed.

Lemma step_handle_issued e w : handle_issued w -> handle_issued (step e w).
Proof.
  intros Hi. destruct e; cbn [step].
  - now apply start_handle_issued.
  - now apply stop_handle_issued.
  - exact Hi.
  - destruct (mem handle (frameCallbacks (host w))); [|exact Hi].
    apply animate_handle_issued. exact Hi.
  - destruct (mem handle (timeouts (host w))); [|exact Hi].
    eapply handle_issued_same; [apply resizeTimer_same_driver|]. exact Hi.
  - eapply handle_issued_same; [apply debouncedResize_same_driver|]. exact Hi.
  - exact Hi.
  - exact Hi.
  - unfold ParticleSystem.onVisibilityChange.
    cbn [host set_host documentHidden set_documentHidden].
    destruct hidden; [apply stop_handle_issued | apply start_handle_issued];
      exact Hi.
  - unfold handle_issued in *. cbn.
    destruct (animationId (sys w)); [lia|exact I].
Qed.

Lemma reachable_handle_issued w : reachable w -> handle_issued w.
Proof.
  induction 1 as [b b' s Hf Hc | e w _ IH].
  - destruct (created_world b b' s Hc) as (_ & _ & ->).
    destruct (constructed_driver b) as (_ & _ & Hid & _).
    unfold handle_issued. cbn [sys]. now rewrite Hid.
  - now apply step_handle_issued.
Qed.

(** While the system runs, the frame callback it holds is the only one
    that does anything: when it fires, one physics step and one rendering
    run and exactly one callback is requested again, under a new, larger
    handle; any other handle firing changes nothing. *)
Theorem frame_callback_continues_the_loop :
  forall (w : World) (h h' : Z),
    reachable w ->
    animationId (sys w) = Some h ->
    h' <> h ->
    let w1 := step (FrameFires h) w in
    let h1 := (frameHandle (host w) + 1)%Z in
    updates (sys w1) = S (updates (sys w))
    /\ draws (sys w1) = S (draws (sys w))
    /\ animationId (sys w1) = Some h1
    /\ frameCallbacks (host w1) = [h1]
    /\ (h < h1)%Z
    /\ step (FrameFires h') w = w.
Proof.
  intros w h h' Hr Hid Hne w1 h1.
  pose proof (reachable_inv w Hr) as [Hh Hinv].
  pose proof (reachable_handle_issued w Hr) as Hi.
  unfold handle_issued in Hi. rewrite Hid in Hinv, Hi.
  destruct Hinv as (Hq & Hpos & Hv).
  subst w1 h1. cbn [step]. rewrite Hq.
  assert (Em : mem h [h] = true) by (cbn; now rewrite Z.eqb_refl).
  assert (Em' : mem h' [h] = false).
  { cbn. rewrite orb_false_r. apply Z.eqb_neq. exact Hne. }
  rewrite Em, Em', remove_single.
  match goal with
  | |- context [ParticleSystem.animate ?w0] =>
      destruct (animate_visible w0 Hv) as (Hq' & _ & Hid' & _ & Hu & Hd)
  end.
  rewrite Hq', Hid', Hu, Hd. cbn.
  repeat split. lia.
Qed.

Lemma runningWorld_handle :
  animationId (sys runningWorld) = Some (frameHandle (host demoWorld) + 1)%Z.
Proof.
  unfold runningWorld. cbn [step]. apply start_idle.
  unfold demoWorld. cbn [sys]. apply constructed_driver.
Qed.

Lemma frame_callback_continues_the_loop_witness :
  reachable runningWorld /\
  updates (sys (step (FrameFires (frameHandle (host demoWorld) + 1)) runningWorld))
  = S (updates (sys runningWorld)) /\
  step (FrameFires 7) runningWorld = runningWorld.
Proof.
  assert (Hne : 7%Z <> (frameHandle (host demoWorld) + 1)%Z).
  { unfold demoWorld, logs. cbn [host frameHandle set_calls].
    destruct (constructed_driver demoBrowser) as (_ & -> & _). cbn. lia. }
  destruct (frame_callback_continues_the_loop runningWorld _ 7%Z
              runningWorld_reachable runningWorld_handle Hne)
    as (Hu & _ & _ & _ & _ & Hno).
  split; [exact runningWorld_reachable|]. split; [exact Hu | exact Hno].
Defined.

(** ** Visibility *)

(** The system holds a handle, its callback is the one queued, and it is
    visible. *)
Definition running (w : World) : Prop :=
  exists h,
    animationId (sys w) = Some h /\
    frameCallbacks (host w) = [h] /\
    isVisible (sys w) = true.

Lemma start_running w : driver_inv w -> running (ParticleSystem.start w).
Proof.
  intros Hinv. pose proof (start_inv w Hinv) as [_ Hs].
  destruct (animationId (sys w)) as [h|] eqn:Eid.
  - rewrite (start_running_noop w Hinv) in * by congruence.
    rewrite Eid in Hs. exists h. tauto.
  - rewrite (start_idle w Eid) in Hs. eexists. split; [now apply start_idle|].
    tauto.
Qed.

Lemma start_idle_probes w :
  animationId (sys w) = None ->
  updates (sys (ParticleSystem.start w)) = S (updates (sys w)).
Proof.
  intros Hid. unfold ParticleSystem.start.
  cbn [sys set_sys animationId set_isVisible]. rewrite Hid. cbn [truthy negb].
  match goal with
  | |- context [ParticleSystem.animate ?w0] =>
      destruct (animate_visible w0 eq_refl) as (_ & _ & _ & _ & Hu & _)
  end.
  now rewrite Hu.
Qed.

(** When the document becomes hidden the system stops without running a
    frame; when it becomes visible the system runs, with exactly its one
    callback queued, and it has run a frame at once exactly if it was not
    running before. *)
Theorem visibility_pauses_and_resumes :
  forall (w : World),
    reachable w ->
    let wh := step (VisibilityChanged true) w in
    let wv := step (VisibilityChanged false) w in
    stopped wh
    /\ updates (sys wh) = updates (sys w)
    /\ running wv
    /\ updates (sys wv)
       = ((match animationId (sys w) with Some _ => 0 | None => 1 end)
          + updates (sys w))%nat
    /\ running (step (VisibilityChanged false) wh).
Proof.
  intros w Hr wh wv.
  pose proof (reachable_inv w Hr) as Hinv.
  assert (Hset : forall v, driver_inv (set_host w (set_documentHidden (host w) v))).
  { intros v. eapply driver_inv_same; [|exact Hinv]. repeat split. }
  assert (Hwh : reachable wh) by now apply reach_step.
  subst wh wv. cbn [step] in *. unfold ParticleSystem.onVisibilityChange in *.
  cbn [host set_host documentHidden set_documentHidden] in *.
  split; [now apply stop_stopped|].
  split; [now destruct (stop_probes (set_host w (set_documentHidden (host w) true)))|].
  split; [now apply start_running|].
  split.
  - destruct (animationId (sys w)) as [h|] eqn:Eid.
    + rewrite start_running_noop; [reflexivity|apply Hset|cbn; congruence].
    + now rewrite start_idle_probes by exact Eid.
  - apply start_running. eapply driver_inv_same; [|apply (reachable_inv _ Hwh)].
    repeat split.
Qed.

Lemma visibility_pauses_and_resumes_witness :
  reachable runningWorld /\
  stopped (step (VisibilityChanged true) runningWorld) /\
  running (step (VisibilityChanged false)
             (step (VisibilityChanged true) runningWorld)).
Proof.
  destruct (visibility_pauses_and_resumes runningWorld runningWorld_reachable)
    as (H1 & _ & _ & _ & H2).
  split; [exact runningWorld_reachable|]. split; [exact H1 | exact H2].
Defined.

(** ** Start-up *)

Lemma fresh_log c b : fresh b -> fresh (log c b).
Proof. intros H. exact H. Qed.

(** The exported [initParticles()] creates a system exactly when motion is
    not reduced, the canvas element exists and it gives a 2D context. *)
Theorem system_created_exactly_when_possible :
  forall (b : Browser),
    snd (initParticles b) <> None
    <-> (reducedMotion b = false /\ canvasPresent b = true /\ context2d b = true).
Proof.
  intros b. unfold initParticles.
  cbn [reducedMotion canvasPresent log set_calls].
  destruct (reducedMotion b); [cbn; split; [congruence|intros (H & _); discriminate]|].
  destruct (canvasPresent b); cbn [negb];
    [|cbn; split; [congruence|intros (_ & H & _); discriminate]].
  destruct (context2d b) eqn:Ectx.
  - rewrite createParticleSystem_context by exact Ectx.
    cbn [snd]. split; [auto|discriminate].
  - rewrite createParticleSystem_no_context by exact Ectx.
    cbn. split; [congruence|intros (_ & _ & H); discriminate].
Qed.

(** On a page where the system can be created, the exported
    [initParticles()] leaves it running: one frame has been computed and
    drawn, exactly one frame callback is queued, the pointer is at the
    off-screen sentinel, the particles number
    [min(60, floor(w * h / 15000))], and the four listeners were added
    last before the first frame. *)
Theorem startup_leaves_system_running :
  forall (b : Browser),
    fresh b ->
    reducedMotion b = false ->
    canvasPresent b = true ->
    context2d b = true ->
    exists b' s,
      initParticles b = (b', Some s)
      /\ reachable (mkWorld b' s)
      /\ running (mkWorld b' s)
      /\ animationId s = Some (frameHandle b + 1)%Z
      /\ updates s = 1%nat /\ draws s = 1%nat
      /\ mouseX s = MOUSE_OFFSCREEN /\ mouseY s = MOUSE_OFFSCREEN
      /\ length (particles s)
         = Z.to_nat (Z.min 60 (innerWidth b * innerHeight b / 15000))
      /\ timeouts b' = [].
Proof.
  intros b Hf Hrm Hcv Hctx.
  set (b2 := log GetElementById (log MatchMedia b)).
  assert (Hf2 : fresh b2) by exact Hf.
  assert (Hctx2 : context2d b2 = true) by exact Hctx.
  pose proof (createParticleSystem_context b2 Hctx2) as Ec.
  set (w0 := mkWorld (logs listeners (host (constructed b2)))
                     (sys (constructed b2))) in *.
  assert (Hr0 : reachable w0) by (apply (reach_create b2); assumption).
  assert (Ei : initParticles b
               = (host (ParticleSystem.start w0), Some (sys (ParticleSystem.start w0)))).
  { unfold initParticles. cbv zeta.
    change (reducedMotion (log MatchMedia b)) with (reducedMotion b).
    change (canvasPresent (log GetElementById (log MatchMedia b)))
      with (canvasPresent b).
    rewrite Hrm, Hcv. cbn [negb]. fold b2.
    rewrite Ec. reflexivity. }
  destruct (constructed_driver b2) as (Hq & Hh & Hid & Hv & Hu & Hd).
  destruct (constructed_timer b2) as (Ht & _).
  assert (Hs0 : stopped (ParticleSystem.stop w0))
    by (apply stop_stopped, reachable_inv, Hr0).
  exists (host (ParticleSystem.start w0)), (sys (ParticleSystem.start w0)).
  assert (Hw : mkWorld (host (ParticleSystem.start w0)) (sys (ParticleSystem.start w0))
               = step CallStart w0) by (cbn [step]; now destruct (ParticleSystem.start w0)).
  rewrite Hw.
  assert (Hid0 : animationId (sys w0) = None) by exact Hid.
  split; [exact Ei|].
  split; [now apply reach_step|].
  split; [cbn [step]; apply start_running, reachable_inv, Hr0|].
  split; [rewrite (start_idle w0 Hid0); cbn [w0 host]; unfold logs;
          cbn [frameHandle set_calls]; now rewrite Hh|].
  assert (Hstart : ParticleSystem.start w0
                   = ParticleSystem.animate (set_sys w0 (set_isVisible (sys w0) true))).
  { unfold ParticleSystem.start. cbn [sys set_sys animationId set_isVisible].
    now rewrite Hid0. }
  rewrite Hstart.
  set (w1 := set_sys w0 (set_isVisible (sys w0) true)) in *.
  destruct (animate_visible w1 eq_refl) as (_ & _ & _ & _ & Hu1 & Hd1).
  destruct (animate_same_timer w1) as (Ht1 & _ & _).
  rewrite Hu1, Hd1, Ht1, animate_particles_length.
  assert (Hm : mouseX (sys (ParticleSystem.animate w1)) = mouseX (sys w1)
               /\ mouseY (sys (ParticleSystem.animate w1)) = mouseY (sys w1)).
  { unfold ParticleSystem.animate. cbn. split; reflexivity. }
  destruct Hm as (-> & ->).
  subst w1 w0. cbn [sys set_sys host set_isVisible updates draws mouseX mouseY
                    particles].
  unfold logs. cbn [timeouts set_calls]. rewrite Hu, Hd, Ht.
  destruct Hf as (_ & Hto & _).
  assert (Hlen : length (particles (sys (constructed b2)))
                 = Z.to_nat (Z.min 60 (innerWidth b * innerHeight b / 15000))).
  { unfold constructed.
    rewrite initParticles_particles_length, particleCount_integer.
    unfold ToLength, Math_floor. now rewrite ZfloorZ. }
  assert (Hmouse : mouseX (sys (constructed b2)) = MOUSE_OFFSCREEN
                   /\ mouseY (sys (constructed b2)) = MOUSE_OFFSCREEN).
  { unfold constructed, ParticleSystem.initParticles. cbn. split; reflexivity. }
  destruct Hmouse as (Hmx & Hmy).
  repeat split; assumption.
Qed.

Lemma startup_leaves_system_running_witness :
  fresh demoBrowser /\
  exists b' s,
    initParticles demoBrowser = (b', Some s)
    /\ running (mkWorld b' s)
    /\ length (particles s) = 32%nat.
Proof.
  assert (Hf : fresh demoBrowser) by (repeat split; cbn; lia).
  split; [exact Hf|].
  destruct (startup_leaves_system_running demoBrowser Hf eq_refl eq_refl eq_refl)
    as (b' & s & Hi & _ & Hrun & _ & _ & _ & _ & _ & Hlen & _).
  exists b', s. split; [exact Hi|]. split; [exact Hrun | exact Hlen].
Defined.

(** * The typing animation of the home page

    The module [home] calls the exported [initParticles()] from [init()],
    next to the typing animation of the hero line.  Strings are lists of
    UTF-16 code units; the timers are those of the browser above, of which
    only the ones of the typing animation are followed here. *)

Module Typing.

Definition JsString := list Z.

Definition TYPING_SPEED_MS : Z := 80.
Definition TYPING_PAUSE_MS : Z := 2000.
Definition TYPING_DELETE_SPEED_MS : Z := 40.

(** [s.substring(0, n)]: a negative [n] counts as 0, one beyond the length
    as the length. *)
Definition substring0 (s : JsString) (n : Z) : JsString := firstn (Z.to_nat n) s.

Definition strlen (s : JsString) : Z := Z.of_nat (length s).

(** The browser, the text of the element [hero-typing] ([None] when the
    element is absent), the module variable [typingTimeoutId], and the
    variables of the closure of the last [startTypingAnimation] that got
    as far as [type()]. *)
Record State := mkState {
  thost : Browser;
  textContent : option JsString;
  typingTimeoutId : option Z;
  phrases : list JsString;
  phraseIndex : nat;
  charIndex : Z;
  isDeleting : bool
}.

Definition set_thost (t : State) (b : Browser) : State :=
  mkState b (textContent t) (typingTimeoutId t) (phrases t) (phraseIndex t)
    (charIndex t) (isDeleting t).

(** [type()].  [None] stands for the exception of [undefined.substring]. *)
Definition type (t : State) : option State :=
  match nth_error (phrases t) (phraseIndex t) with
  | None => None
  | Some currentPhrase =>
      let charIndex1 :=
        if isDeleting t then (charIndex t - 1)%Z else (charIndex t + 1)%Z in
      let text := substring0 currentPhrase charIndex1 in
      let delay :=
        if isDeleting t then TYPING_DELETE_SPEED_MS else TYPING_SPEED_MS in
      let '(delay, isDeleting1, phraseIndex1) :=
        if negb (isDeleting t) && (charIndex1 =? strlen currentPhrase)%Z then
          (TYPING_PAUSE_MS, true, phraseIndex t)
        else if isDeleting t && (charIndex1 =? 0)%Z then
          (TYPING_SPEED_MS, false,
           Nat.modulo (phraseIndex t + 1) (length (phrases t)))
        else (delay, isDeleting t, phraseIndex t) in
      let '(h, b) := setTimeout delay (thost t) in
      Some (mkState b (Some text) (Some h) (phrases t) phraseIndex1 charIndex1
              isDeleting1)
  end.

Definition stopTypingAnimation (t : State) : State :=
  match typingTimeoutId t with
  | Some h =>
      mkState (clearTimeout h (thost t)) (textContent t) None (phrases t)
        (phraseIndex t) (charIndex t) (isDeleting t)
  | None => t
  end.

(** [startTypingAnimation(element, phrases)], the element being the one the
    state holds the text of. *)
Definition startTypingAnimation (ps : list JsString) (t : State)
  : option State :=
  let t := stopTypingAnimation t in
  match textContent t with
  | None => Some t
  | Some _ =>
      if (length ps =? 0)%nat then Some t
      else
        let b := log MatchMedia (thost t) in
        if reducedMotion b then
          Some (mkState b (Some (nth 0 ps [])) (typingTimeoutId t) (phrases t)
                  (phraseIndex t) (charIndex t) (isDeleting t))
        else
          type (mkState b (textContent t) (typingTimeoutId t) ps 0 0 false)
  end.

(** The browser runs the timer [h], if it is still pending. *)
Definition timerFires (h : Z) (t : State) : option State :=
  let b := thost t in
  if mem h (timeouts b) then
    type (set_thost t (set_timeouts b (remove Z.eq_dec h (timeouts b))
                         (timeoutHandle b)))
  else Some t.

Fixpoint fires (hs : list Z) (t : State) : option State :=
  match hs with
  | [] => Some t
  | h :: hs' =>
      match timerFires h t with
      | Some t' => fires hs' t'
      | None => None
      end
  end.

(** The pending timer of the animation fires. *)
Definition tick (t : State) : option State :=
  match typingTimeoutId t with
  | Some h => timerFires h t
  | None => Some t
  end.

Fixpoint ticks (n : nat) (t : State) : option State :=
  match n with
  | O => Some t
  | S n' =>
      match tick t with
      | Some t' => ticks n' t'
      | None => None
      end
  end.

End Typing.

(** ** The typing animation, step by step *)

(** The module variable names the pending timer, if any. *)
Definition tidy (t : Typing.State) : Prop :=
  timeouts (Typing.thost t)
  = match Typing.typingTimeoutId t with Some h => [h] | None => [] end.

(** Between two runs of [type()]: the text shown is the first [charIndex]
    code units of the current phrase, [charIndex] is within the phrase, not
    0 while deleting and not the length while typing, and the one pending
    timer is the one [typingTimeoutId] names. *)
Definition typing (t : Typing.State) : Prop :=
  exists phrase h,
    nth_error (Typing.phrases t) (Typing.phraseIndex t) = Some phrase /\
    (0 <= Typing.charIndex t <= Typing.strlen phrase)%Z /\
    Typing.textContent t = Some (Typing.substring0 phrase (Typing.charIndex t)) /\
    (if Typing.isDeleting t then (0 < Typing.charIndex t)%Z
     else (Typing.charIndex t < Typing.strlen phrase)%Z) /\
    Typing.typingTimeoutId t = Some h /\
    timeouts (Typing.thost t) = [h].

Definition nonempty_phrases (ps : list Typing.JsString) : Prop :=
  Forall (fun p => p <> []) ps.

Lemma strlen_positive p : p <> [] -> (0 < Typing.strlen p)%Z.
Proof. destruct p; [congruence|]. unfold Typing.strlen. cbn [length]. lia. Qed.

Lemma next_phrase ps i :
  ps <> [] -> nonempty_phrases ps ->
  exists q, nth_error ps (Nat.modulo (i + 1) (length ps)) = Some q /\ q <> [].
Proof.
  intros Hne Hall.
  assert (Hlt : (Nat.modulo (i + 1) (length ps) < length ps)%nat).
  { apply Nat.mod_upper_bound. destruct ps; [congruence|cbn; lia]. }
  destruct (nth_error ps (Nat.modulo (i + 1) (length ps))) as [q|] eqn:E.
  - exists q. split; [reflexivity|].
    unfold nonempty_phrases in Hall. rewrite Forall_forall in Hall.
    apply Hall. eapply nth_error_In. exact E.
  - apply nth_error_None in E. lia.
Qed.

(** What one run of [type()] does, by the case it is in. *)
Lemma type_cases t phrase :
  nth_error (Typing.phrases t) (Typing.phraseIndex t) = Some phrase ->
  timeouts (Typing.thost t) = [] ->
  let c1 := if Typing.isDeleting t then (Typing.charIndex t - 1)%Z
            else (Typing.charIndex t + 1)%Z in
  exists t',
    Typing.type t = Some t'
    /\ Typing.phrases t' = Typing.phrases t
    /\ Typing.charIndex t' = c1
    /\ Typing.textContent t' = Some (Typing.substring0 phrase c1)
    /\ Typing.typingTimeoutId t' = Some (timeoutHandle (Typing.thost t) + 1)%Z
    /\ timeouts (Typing.thost t') = [(timeoutHandle (Typing.thost t) + 1)%Z]
    /\ reducedMotion (Typing.thost t') = reducedMotion (Typing.thost t)
    /\ (if negb (Typing.isDeleting t) && (c1 =? Typing.strlen phrase)%Z then
          Typing.isDeleting t' = true
          /\ Typing.phraseIndex t' = Typing.phraseIndex t
          /\ hd_error (calls (Typing.thost t'))
             = Some (SetTimeout (timeoutHandle (Typing.thost t) + 1)
                       Typing.TYPING_PAUSE_MS)
        else if Typing.isDeleting t && (c1 =? 0)%Z then
          Typing.isDeleting t' = false
          /\ Typing.phraseIndex t'
             = Nat.modulo (Typing.phraseIndex t + 1) (length (Typing.phrases t))
          /\ hd_error (calls (Typing.thost t'))
             = Some (SetTimeout (timeoutHandle (Typing.thost t) + 1)
                       Typing.TYPING_SPEED_MS)
        else
          Typing.isDeleting t' = Typing.isDeleting t
          /\ Typing.phraseIndex t' = Typing.phraseIndex t
          /\ hd_error (calls (Typing.thost t'))
             = Some (SetTimeout (timeoutHandle (Typing.thost t) + 1)
                       (if Typing.isDeleting t then Typing.TYPING_DELETE_SPEED_MS
                        else Typing.TYPING_SPEED_MS))).
Proof.
  intros Hnth Hq c1. unfold Typing.type. rewrite Hnth. cbn zeta. fold c1.
  destruct (negb (Typing.isDeleting t) && (c1 =? Typing.strlen phrase)%Z);
    [|destruct (Typing.isDeleting t && (c1 =? 0)%Z)];
    eexists; (split; [reflexivity|]); cbn; rewrite Hq; repeat split.
Qed.

Lemma type_keeps_typing t phrase :
  Typing.phrases t <> [] ->
  nonempty_phrases (Typing.phrases t) ->
  nth_error (Typing.phrases t) (Typing.phraseIndex t) = Some phrase ->
  (0 <= Typing.charIndex t <= Typing.strlen phrase)%Z ->
  (if Typing.isDeleting t then (0 < Typing.charIndex t)%Z
   else (Typing.charIndex t < Typing.strlen phrase)%Z) ->
  timeouts (Typing.thost t) = [] ->
  exists t',
    Typing.type t = Some t' /\ typing t'
    /\ Typing.phrases t' = Typing.phrases t
    /\ reducedMotion (Typing.thost t') = reducedMotion (Typing.thost t).
Proof.
  intros Hne Hall Hnth Hc Hflag Hq.
  destruct (type_cases t phrase Hnth Hq)
    as (t' & Ht & Hps & Hc' & Htext & Hid & Hq' & Hrm & Hcase).
  exists t'. split; [exact Ht|]. split; [|split; assumption].
  cbn zeta in Hcase.
  destruct (Typing.isDeleting t) eqn:Ed; cbn [negb andb] in Hcase.
  - destruct (Z.eqb_spec (Typing.charIndex t - 1) 0) as [E0|E0].
    + destruct Hcase as (Hd & Hi & _).
      destruct (next_phrase (Typing.phrases t) (Typing.phraseIndex t) Hne Hall)
        as (q & Hq1 & Hq2).
      exists q, (timeoutHandle (Typing.thost t) + 1)%Z.
      rewrite Hps, Hi, Hd, Hc', Htext, E0.
      pose proof (strlen_positive q Hq2).
      repeat split; try assumption; try lia.
    + destruct Hcase as (Hd & Hi & _).
      exists phrase, (timeoutHandle (Typing.thost t) + 1)%Z.
      rewrite Hps, Hi, Hd, Hc', Htext.
      repeat split; try assumption; lia.
  - destruct (Z.eqb_spec (Typing.charIndex t + 1) (Typing.strlen phrase)) as [E0|E0].
    + destruct Hcase as (Hd & Hi & _).
      exists phrase, (timeoutHandle (Typing.thost t) + 1)%Z.
      rewrite Hps, Hi, Hd, Hc', Htext.
      repeat split; try assumption; lia.
    + destruct Hcase as (Hd & Hi & _).
      exists phrase, (timeoutHandle (Typing.thost t) + 1)%Z.
      rewrite Hps, Hi, Hd, Hc', Htext.
      repeat split; try assumption; lia.
Qed.

Lemma timerFires_keeps_typing h t :
  Typing.phrases t <> [] ->
  nonempty_phrases (Typing.phrases t) ->
  typing t ->
  exists t',
    Typing.timerFires h t = Some t' /\ typing t'
    /\ Typing.phrases t' = Typing.phrases t.
Proof.
  intros Hne Hall Ht.
  pose proof Ht as (phrase & h0 & Hnth & Hc & Htext & Hflag & Hid & Hq).
  unfold Typing.timerFires. cbn zeta. rewrite Hq.
  destruct (mem h [h0]) eqn:Em; [|exists t; auto].
  apply mem_single in Em. subst h0. rewrite remove_single.
  match goal with
  | |- context [Typing.type ?t0] =>
      destruct (type_keeps_typing t0 phrase Hne Hall Hnth Hc Hflag eq_refl)
        as (t' & Ht' & Hty & Hps & _)
  end.
  exists t'. auto.
Qed.

Lemma stop_clears t :
  tidy t ->
  timeouts (Typing.thost (Typing.stopTypingAnimation t)) = []
  /\ Typing.typingTimeoutId (Typing.stopTypingAnimation t) = None
  /\ Typing.textContent (Typing.stopTypingAnimation t) = Typing.textContent t
  /\ reducedMotion (Typing.thost (Typing.stopTypingAnimation t))
     = reducedMotion (Typing.thost t).
Proof.
  unfold tidy, Typing.stopTypingAnimation. intros Ht.
  destruct (Typing.typingTimeoutId t) as [h|] eqn:E; cbn; rewrite Ht.
  - rewrite remove_single. repeat split.
  - repeat split. exact E.
Qed.

(** Started on a present element with phrases none of which is empty, and
    motion allowed, the animation never fails, and whichever timers fire,
    the text shown is always the first [charIndex] code units of the
    current phrase, with [charIndex] inside the phrase, and exactly one
    timer is pending. *)
Theorem typing_shows_prefix_of_current_phrase :
  forall (ps : list Typing.JsString) (t : Typing.State) (hs : list Z),
    tidy t ->
    Typing.textContent t <> None ->
    ps <> [] ->
    nonempty_phrases ps ->
    reducedMotion (Typing.thost t) = false ->
    exists t1 t2,
      Typing.startTypingAnimation ps t = Some t1
      /\ Typing.fires hs t1 = Some t2
      /\ typing t1 /\ typing t2
      /\ Typing.phrases t2 = ps.
Proof.
  intros ps t hs Ht Hel Hne Hall Hrm.
  destruct (stop_clears t Ht) as (Hq & Hid & Htext & Hrm0).
  assert (Hstart : exists t1, Typing.startTypingAnimation ps t = Some t1
                     /\ typing t1 /\ Typing.phrases t1 = ps).
  { unfold Typing.startTypingAnimation. cbn zeta. rewrite Htext.
    destruct (Typing.textContent t) as [txt|]; [|congruence].
    destruct ps as [|p ps']; [congruence|]. cbn [length Nat.eqb].
    change (reducedMotion (log MatchMedia (Typing.thost (Typing.stopTypingAnimation t))))
      with (reducedMotion (Typing.thost (Typing.stopTypingAnimation t))).
    rewrite Hrm0, Hrm.
    match goal with
    | |- context [Typing.type ?t0] =>
        assert (Hp : p <> []) by (now inversion Hall);
        pose proof (strlen_positive p Hp) as Hlen;
        destruct (type_keeps_typing t0 p) as (t1 & Ht1 & Hty & Hps & _);
          [exact Hne | exact Hall | reflexivity | cbn; lia | cbn; lia
          | exact Hq |]
    end.
    exists t1. auto. }
  destruct Hstart as (t1 & Ht1 & Hty1 & Hps1).
  exists t1.
  assert (Hrun : forall hs t0, typing t0 -> Typing.phrases t0 = ps ->
            exists t2, Typing.fires hs t0 = Some t2 /\ typing t2
                       /\ Typing.phrases t2 = ps).
  { clear - Hne Hall. induction hs as [|h hs IH]; intros t0 Hty Hps.
    - exists t0. cbn. auto.
    - cbn [Typing.fires].
      destruct (timerFires_keeps_typing h t0) as (t' & Hf & Hty' & Hps');
        [now rewrite Hps | now rewrite Hps | exact Hty |].
      rewrite Hf. apply IH; [exact Hty' | congruence]. }
  destruct (Hrun hs t1 Hty1 Hps1) as (t2 & Hf & Hty2 & Hps2).
  exists t2. auto.
Qed.

Definition greetings : list Typing.JsString := [[72; 105]; [79; 75; 33]]%Z.

Definition blankHero : Typing.State :=
  Typing.mkState demoBrowser (Some []) None [] 0 0 false.

Lemma greetings_nonempty : nonempty_phrases greetings.
Proof. repeat constructor; discriminate. Qed.

Lemma typing_shows_prefix_of_current_phrase_witness :
  tidy blankHero /\
  exists t1 t2,
    Typing.startTypingAnimation greetings blankHero = Some t1
    /\ Typing.fires [1; 7; 2; 3]%Z t1 = Some t2
    /\ typing t2.
Proof.
  assert (Ht : tidy blankHero) by reflexivity.
  split; [exact Ht|].
  destruct (typing_shows_prefix_of_current_phrase greetings blankHero
              [1; 7; 2; 3]%Z Ht ltac:(discriminate) ltac:(discriminate)
              greetings_nonempty eq_refl)
    as (t1 & t2 & H1 & H2 & _ & H3 & _).
  exists t1, t2. split; [exact H1|]. split; [exact H2 | exact H3].
Defined.

(** ** One phrase, typed and deleted *)











(** ** The typing animation at its edges *)

(** Without the element, without phrases, or with reduced motion, the
    animation that was running is cancelled and none is started: no timer
    is pending afterwards.  The text is left alone, except under reduced
    motion, where it becomes the first phrase at once. *)
Theorem typing_not_started_leaves_no_timer :
  forall (ps : list Typing.JsString) (t : Typing.State),
    tidy t ->
    Typing.textContent t = None \/ ps = [] \/ reducedMotion (Typing.thost t) = true ->
    exists t',
      Typing.startTypingAnimation ps t = Some t'
      /\ timeouts (Typing.thost t') = []
      /\ Typing.typingTimeoutId t' = None
      /\ Typing.textContent t'
         = match Typing.textContent t, ps with
           | Some _, p :: _ => Some p
           | _, _ => Typing.textContent t
           end.
Proof.
  intros ps t Ht Hcase.
  destruct (stop_clears t Ht) as (Hq & Hid & Htext & Hrm0).
  unfold Typing.startTypingAnimation. cbn zeta. rewrite Htext.
  destruct (Typing.textContent t) as [txt|] eqn:Etxt.
  - destruct ps as [|p ps'].
    + cbn. eexists. split; [reflexivity|]. rewrite Hq, Hid, Htext. auto.
    + cbn [length Nat.eqb].
      change (reducedMotion (log MatchMedia (Typing.thost (Typing.stopTypingAnimation t))))
        with (reducedMotion (Typing.thost (Typing.stopTypingAnimation t))).
      rewrite Hrm0.
      destruct Hcase as [H|[H|H]]; [discriminate|discriminate|].
      rewrite H. eexists. split; [reflexivity|]. cbn. rewrite Hq, Hid. auto.
  - eexists. split; [reflexivity|]. rewrite Hq, Hid, Htext. auto.
Qed.

Definition reducedHero : Typing.State :=
  Typing.mkState (set_timeouts calmBrowser [4%Z] 4) (Some []) (Some 4%Z)
    greetings 1 2 true.

Lemma typing_not_started_leaves_no_timer_witness :
  tidy reducedHero /\
  exists t',
    Typing.startTypingAnimation greetings reducedHero = Some t'
    /\ timeouts (Typing.thost t') = []
    /\ Typing.textContent t' = Some [72; 105]%Z.
Proof.
  assert (Ht : tidy reducedHero) by reflexivity.
  split; [exact Ht|].
  destruct (typing_not_started_leaves_no_timer greetings reducedHero Ht
              (or_intror (or_intror eq_refl)))
    as (t' & H1 & H2 & _ & H3).
  exists t'. split; [exact H1|]. split; [exact H2 | exact H3].
Defined.

(** The animation is stuck on an empty phrase at index [i], [c] runs of
    [type()] into it. *)
Definition stalled (t : Typing.State) (ps : list Typing.JsString) (i : nat)
  (c : Z) : Prop :=
  Typing.phrases t = ps /\ Typing.phraseIndex t = i /\
  Typing.charIndex t = c /\ Typing.isDeleting t = false /\
  Typing.textContent t = Some [] /\
  exists h, Typing.typingTimeoutId t = Some h /\ timeouts (Typing.thost t) = [h].

Lemma substring0_empty n : Typing.substring0 [] n = [].
Proof. unfold Typing.substring0. apply firstn_nil. Qed.

Lemma type_stalls t ps i c :
  nth_error ps i = Some [] ->
  Typing.phrases t = ps -> Typing.phraseIndex t = i ->
  Typing.charIndex t = c -> Typing.isDeleting t = false ->
  (0 <= c)%Z ->
  timeouts (Typing.thost t) = [] ->
  exists t', Typing.type t = Some t' /\ stalled t' ps i (c + 1).
Proof.
  intros Hnth Hps Hi Hc Hd Hc0 Hq.
  destruct (type_cases t []) as (t' & Ht' & Hps' & Hc' & Htext & Hid & Hq' & _ & Hcase);
    [now rewrite Hps, Hi | exact Hq |].
  rewrite Hd, Hc in Hc', Htext, Hcase. cbn [negb andb] in Hcase.
  rewrite substring0_empty in Htext.
  destruct (Z.eqb_spec (c + 1) (Typing.strlen [])) as [E|E];
    [unfold Typing.strlen in E; cbn in E; lia|].
  destruct Hcase as (Hd' & Hi' & _).
  exists t'. split; [exact Ht'|].
  unfold stalled.
  split; [congruence|]. split; [congruence|]. split; [exact Hc'|].
  split; [exact Hd'|]. split; [exact Htext|].
  eexists. split; eassumption.
Qed.

Lemma tick_stalls t ps i c :
  nth_error ps i = Some [] -> (0 <= c)%Z ->
  stalled t ps i c ->
  exists t', Typing.tick t = Some t' /\ stalled t' ps i (c + 1).
Proof.
  intros Hnth Hc0 (Hps & Hi & Hc & Hd & Htext & h & Hid & Hq).
  unfold Typing.tick, Typing.timerFires. rewrite Hid. cbn zeta. rewrite Hq.
  assert (Em : mem h [h] = true) by (cbn; now rewrite Z.eqb_refl).
  rewrite Em, remove_single.
  apply type_stalls; assumption || reflexivity.
Qed.

(** An empty phrase stalls the animation: started on phrases whose first
    one is empty, it never reaches the deleting phase, so the text stays
    empty and the later phrases are never shown, however many timers
    fire; only [charIndex] grows. *)
Theorem empty_phrase_stalls_animation :
  forall (rest : list Typing.JsString) (t : Typing.State) (n : nat),
    tidy t ->
    Typing.textContent t <> None ->
    reducedMotion (Typing.thost t) = false ->
    exists t1 t',
      Typing.startTypingAnimation ([] :: rest) t = Some t1
      /\ Typing.ticks n t1 = Some t'
      /\ Typing.phraseIndex t' = 0%nat
      /\ Typing.textContent t' = Some []
      /\ Typing.isDeleting t' = false
      /\ Typing.charIndex t' = (Z.of_nat n + 1)%Z.
Proof.
  intros rest t n Ht Hel Hrm.
  destruct (stop_clears t Ht) as (Hq & Hid & Htext & Hrm0).
  assert (Hstart : exists t1,
            Typing.startTypingAnimation ([] :: rest) t = Some t1
            /\ stalled t1 ([] :: rest) 0 1).
  { unfold Typing.startTypingAnimation. cbn zeta. rewrite Htext.
    destruct (Typing.textContent t) as [txt|]; [|congruence].
    cbn [length Nat.eqb].
    change (reducedMotion (log MatchMedia (Typing.thost (Typing.stopTypingAnimation t))))
      with (reducedMotion (Typing.thost (Typing.stopTypingAnimation t))).
    rewrite Hrm0, Hrm.
    apply (type_stalls _ ([] :: rest) 0%nat 0%Z); try reflexivity; try lia.
    exact Hq. }
  destruct Hstart as (t1 & Ht1 & Hst1).
  assert (Hrun : forall n t0 c, (0 <= c)%Z -> stalled t0 ([] :: rest) 0 c ->
            exists t', Typing.ticks n t0 = Some t'
                       /\ stalled t' ([] :: rest) 0 (c + Z.of_nat n)).
  { clear. induction n as [|n IH]; intros t0 c Hc Hst.
    - exists t0. cbn [Typing.ticks]. replace (c + Z.of_nat 0)%Z with c by lia. auto.
    - destruct (tick_stalls t0 ([] :: rest) 0%nat c eq_refl Hc Hst) as (t' & Ht' & Hst').
      destruct (IH t' (c + 1)%Z ltac:(lia) Hst') as (t'' & Ht'' & Hst'').
      exists t''. cbn [Typing.ticks]. rewrite Ht'. split; [exact Ht''|].
      replace (c + Z.of_nat (S n))%Z with (c + 1 + Z.of_nat n)%Z by lia.
      exact Hst''. }
  destruct (Hrun n t1 1%Z ltac:(lia) Hst1) as (t' & Ht' & (Hps & Hi & Hc & Hd & Htxt & _)).
  exists t1, t'. repeat split; try assumption. lia.
Qed.

Lemma empty_phrase_stalls_animation_witness :
  tidy blankHero /\
  exists t1 t',
    Typing.startTypingAnimation ([] :: greetings) blankHero = Some t1
    /\ Typing.ticks 100 t1 = Some t'
    /\ Typing.phraseIndex t' = 0%nat
    /\ Typing.textContent t' = Some [].
Proof.
  assert (Ht : tidy blankHero) by reflexivity.
  split; [exact Ht|].
  destruct (empty_phrase_stalls_animation greetings blankHero 100 Ht
              ltac:(discriminate) eq_refl)
    as (t1 & t' & H1 & H2 & H3 & H4 & _).
  exists t1, t'. split; [exact H1|]. split; [exact H2|]. split; [exact H3 | exact H4].
Defined.
